(** * FTC documentation builder: the pandoc filter, the caption cache and
      the logbook helpers

    A shallow embedding of [doc/src/md2tex.py] and of the list formatter of
    [doc/src/build.py], with the properties their specification states.

    Python [str] values are embedded as [string]: the UTF-8 bytes of the
    text.  Concatenation, [in] and [count] with a one-character ASCII
    needle, [endswith], [removesuffix] and [join] act on those bytes
    exactly as Python acts on the code points.  [strip], [capitalize] and
    [int] depend on Unicode tables; they are embedded with their behaviour
    on ASCII text, and the statements that rely on it say so. *)

From Stdlib Require Import ZArith Ascii String DecimalString Lia.
From stdpp Require Import gmap strings list fin_maps.

Local Open Scope string_scope.
Local Open Scope list_scope.
Local Open Scope Z_scope.

(** ** Python runtime: exceptions and results *)

Inductive exn :=
| RuntimeError (msg : string)
| ValueError
| IndexError
| ImageError
| ModelError
| YamlError.

Inductive result (A : Type) :=
| Ok (a : A)
| Raise (e : exn).
Arguments Ok {A} a.
Arguments Raise {A} e.

#[export] Instance result_ret : MRet result := fun _ a => Ok a.
#[export] Instance result_bind : MBind result := fun _ _ f r =>
  match r with
  | Ok a => f a
  | Raise e => Raise e
  end.

(** ** Python runtime: strings *)

Definition nl : string := String (ascii_of_nat 10) EmptyString.
Definition dquote : string := String (ascii_of_nat 34) EmptyString.

(** [c in s] for a one-character string [c]. *)
Fixpoint char_in (c : ascii) (s : string) : bool :=
  match s with
  | EmptyString => false
  | String a s' => if Ascii.eqb a c then true else char_in c s'
  end.

(** [s.count(c)] for a one-character string [c]. *)
Fixpoint count_char (c : ascii) (s : string) : nat :=
  match s with
  | EmptyString => O
  | String a s' => if Ascii.eqb a c then S (count_char c s') else count_char c s'
  end.

(** [sep.join(l)]. *)
Fixpoint join (sep : string) (l : list string) : string :=
  match l with
  | [] => EmptyString
  | [x] => x
  | x :: l' => x +:+ sep +:+ join sep l'
  end.

(** [l[i]] with Python's negative indices and its [IndexError]. *)
Definition getitem {A} (l : list A) (i : Z) : result A :=
  let n := Z.of_nat (length l) in
  let j := if i <? 0 then i + n else i in
  if (0 <=? j) && (j <? n) then
    match l !! Z.to_nat j with
    | Some x => Ok x
    | None => Raise IndexError
    end
  else Raise IndexError.

(** [l[:-1]]. *)
Definition slice_init {A} (l : list A) : list A :=
  take (length l - 1)%nat l.

(** Truth value of a string: [bool(s)]. *)
Definition truthy (s : string) : bool :=
  match s with
  | EmptyString => false
  | String _ _ => true
  end.

(** [c.isspace()] on ASCII: TAB..CR, FS..US and the space. *)
Definition is_space (c : ascii) : bool :=
  let n := nat_of_ascii c in
  ((9 <=? n) && (n <=? 13) || (28 <=? n) && (n <=? 32))%nat.

(** The white space that [int] skips: TAB..CR and the space. *)
Definition is_c_space (c : ascii) : bool :=
  let n := nat_of_ascii c in
  ((9 <=? n) && (n <=? 13) || (n =? 32))%nat.

Fixpoint lstrip (s : string) : string :=
  match s with
  | EmptyString => EmptyString
  | String c s' => if is_space c then lstrip s' else s
  end.

Fixpoint rstrip (s : string) : string :=
  match s with
  | EmptyString => EmptyString
  | String c s' =>
      let r := rstrip s' in
      if negb (truthy r) && is_space c then EmptyString else String c r
  end.

(** [s.strip()]. *)
Definition strip (s : string) : string := rstrip (lstrip s).

Definition upper_char (c : ascii) : ascii :=
  let n := nat_of_ascii c in
  if ((97 <=? n) && (n <=? 122))%nat then ascii_of_nat (n - 32) else c.

Definition lower_char (c : ascii) : ascii :=
  let n := nat_of_ascii c in
  if ((65 <=? n) && (n <=? 90))%nat then ascii_of_nat (n + 32) else c.

Fixpoint lower (s : string) : string :=
  match s with
  | EmptyString => EmptyString
  | String c s' => String (lower_char c) (lower s')
  end.

(** [s.capitalize()]: the first character in upper case, every other
    character in lower case. *)
Definition capitalize (s : string) : string :=
  match s with
  | EmptyString => EmptyString
  | String c s' => String (upper_char c) (lower s')
  end.

Definition is_ascii_char (c : ascii) : bool := (nat_of_ascii c <? 128)%nat.

Fixpoint is_ascii (s : string) : bool :=
  match s with
  | EmptyString => true
  | String c s' => is_ascii_char c && is_ascii s'
  end.

(** The [p] with [s = p + suffix], when [s] ends with [suffix]. *)
Fixpoint strip_suffix (s suffix : string) : option string :=
  if String.eqb s suffix then Some EmptyString
  else match s with
       | EmptyString => None
       | String c s' => String c <$> strip_suffix s' suffix
       end.

(** [s.endswith(suffix)]. *)
Definition endswith (s suffix : string) : bool :=
  bool_decide (is_Some (strip_suffix s suffix)).

(** [s.removesuffix(suffix)]. *)
Definition removesuffix (s suffix : string) : string :=
  if truthy suffix then default s (strip_suffix s suffix) else s.

(** *** [int(s)] on ASCII text *)

Definition digit_value (c : ascii) : option Z :=
  let n := nat_of_ascii c in
  if ((48 <=? n) && (n <=? 57))%nat then Some (Z.of_nat (n - 48)) else None.

Definition is_underscore (c : ascii) : bool := Ascii.eqb c "_".

(** The digits of a literal after its sign: digits with single underscores
    between them.  [prev] tells whether the previous character was a digit;
    the result is the value, the number of digits and the text left. *)
Fixpoint scan_digits (s : string) (prev : bool) (acc : Z) (count : nat)
  : option (Z * nat * string) :=
  match s with
  | EmptyString => if prev then Some (acc, count, EmptyString) else None
  | String c s' =>
      match digit_value c with
      | Some d => scan_digits s' true (10 * acc + d) (S count)
      | None =>
          if is_underscore c then
            if prev then scan_digits s' false acc count else None
          else if prev then Some (acc, count, s) else None
      end
  end.

Fixpoint skip_c_space (s : string) : string :=
  match s with
  | EmptyString => EmptyString
  | String c s' => if is_c_space c then skip_c_space s' else s
  end.

(** [sys.get_int_max_str_digits()], by default. *)
Definition int_max_str_digits : nat := 4300.

(** [int(s)]: white space, a sign, the digits, white space. *)
Definition int (s : string) : result Z :=
  let s := skip_c_space s in
  let '(sign, s) :=
    match s with
    | String "+" s' => (1, s')
    | String "-" s' => (-1, s')
    | _ => (1, s)
    end in
  match scan_digits s false 0 0 with
  | Some (n, count, rest) =>
      if truthy (skip_c_space rest) then Raise ValueError
      else if (int_max_str_digits <? count)%nat then Raise ValueError
      else Ok (sign * n)
  | None => Raise ValueError
  end.

(** *** [str(n / 100)] for an integer [n] *)

Definition decimal (n : Z) : string :=
  DecimalString.NilZero.string_of_uint (N.to_uint (Z.to_N n)).

(** The decimal expansion of [n / 100].  It is what Python prints for the
    float quotient when [|n| < 10^15]: the quotient is the double nearest to
    a decimal of at most 15 significant digits, which [repr] gives back, in
    positional notation below [1e16]. *)
Definition str_div100 (n : Z) : string :=
  let a := Z.abs n in
  let r := a mod 100 in
  let fraction :=
    if r mod 10 =? 0 then decimal (r / 10)
    else decimal (r / 10) +:+ decimal (r mod 10) in
  (if n <? 0 then "-" else EmptyString) +:+ decimal (a / 100) +:+ "." +:+ fraction.

(** ** Python runtime: regular expressions *)

Module Re.

(** The patterns the program uses, as terms: a character class, sequence,
    alternation (first alternative first), a greedy run of a class, a
    named or numbered group, and [$] (the end of the text, or the place
    before a newline that ends it). *)
Inductive re :=
| Eps
| Cls (p : ascii → bool)
| Seq (r1 r2 : re)
| Alt (r1 r2 : re)
| Many (p : ascii → bool)
| Grp (name : string) (r : re)
| Eos.

(** [\d] and [\s] on ASCII text. *)
Definition digit (c : ascii) : bool :=
  let n := nat_of_ascii c in ((48 <=? n) && (n <=? 57))%nat.

Definition space (c : ascii) : bool := is_space c.

Definition chr (c : ascii) : re := Cls (Ascii.eqb c).

(** A letter under [re.IGNORECASE]. *)
Definition chr_i (c : ascii) : re := Cls (fun x => Ascii.eqb (lower_char x) c).

Definition range (lo hi : ascii) : re :=
  Cls (fun c => (nat_of_ascii lo <=? nat_of_ascii c)%nat
                && (nat_of_ascii c <=? nat_of_ascii hi)%nat).

(** The ways a greedy run of [p] can match at the start of [s], longest
    first: the text matched and the text left. *)
Fixpoint many (p : ascii → bool) (s : string) : list (string * string) :=
  match s with
  | EmptyString => [(EmptyString, EmptyString)]
  | String c s' =>
      if p c then
        map (fun mr => (String c mr.1, mr.2)) (many p s') ++ [(EmptyString, s)]
      else [(EmptyString, s)]
  end.

(** Every way [r] can match at the start of [s], in the order in which a
    backtracking matcher tries them: the groups, the text matched and the
    text left. *)
Fixpoint exec (r : re) (s : string) : list (list (string * string) * string * string) :=
  match r with
  | Eps => [([], EmptyString, s)]
  | Cls p =>
      match s with
      | String c s' => if p c then [([], String c EmptyString, s')] else []
      | EmptyString => []
      end
  | Seq r1 r2 =>
      flat_map (fun x =>
        map (fun y => (x.1.1 ++ y.1.1, x.1.2 +:+ y.1.2, y.2)) (exec r2 x.2))
        (exec r1 s)
  | Alt r1 r2 => exec r1 s ++ exec r2 s
  | Many p => map (fun mr => ([], mr.1, mr.2)) (many p s)
  | Grp name r => map (fun x => ((name, x.1.2) :: x.1.1, x.1.2, x.2)) (exec r s)
  | Eos =>
      if negb (truthy s) || String.eqb s nl then [([], EmptyString, s)] else []
  end.

(** [re.match(r, s)]: the first way to match at the start of [s]. *)
Definition match_ (r : re) (s : string) : option (list (string * string) * string * string) :=
  head (exec r s).

(** [m.group(name)]. *)
Fixpoint group (name : string) (groups : list (string * string)) : option string :=
  match groups with
  | [] => None
  | (n, text) :: groups' => if String.eqb n name then Some text else group name groups'
  end.

(** [re.sub(r, repl, s)] for a pattern [r] that matches no empty text:
    the leftmost matches, one after the end of the other, are replaced;
    [skip] counts the characters of the last match still to pass. *)
Fixpoint sub_from (r : re) (repl : list (string * string) → string) (s : string)
    (skip : nat) : string :=
  match s with
  | EmptyString => EmptyString
  | String c s' =>
      match skip with
      | S k => sub_from r repl s' k
      | O =>
          match match_ r s with
          | Some (groups, String _ matched, _) =>
              repl groups +:+ sub_from r repl s' (String.length matched)
          | _ => String c (sub_from r repl s' 0)
          end
      end
  end.

Definition sub (r : re) (repl : list (string * string) → string) (s : string) : string :=
  sub_from r repl s 0.

End Re.

(** ** Python runtime: [datetime.strptime] and [strftime] *)

Module Datetime.

Import Re.

Record datetime := {
  year : Z;
  month : Z;
  day : Z;
  hour : Z;
  minute : Z;
}.

(** A format: directives ([%Y], or [%-d] with the flag that drops the
    padding) and literal characters. *)
Inductive item :=
| Directive (padded : bool) (c : ascii)
| Literal (c : ascii).

Fixpoint parse_format (format : string) : list item :=
  match format with
  | EmptyString => []
  | String "%" (String "-" (String c rest)) => Directive false c :: parse_format rest
  | String "%" (String c rest) => Directive true c :: parse_format rest
  | String c rest => Literal c :: parse_format rest
  end.

(** The pattern of each directive the program parses with, as in
    [_strptime.TimeRE], under the C locale:
    [%d] is [3[0-1]|[1-2]\d|0[1-9]|[1-9]| [1-9]], [%H] is [2[0-3]|[0-1]\d|\d],
    [%I] and [%m] are [1[0-2]|0[1-9]|[1-9]], [%M] is [[0-5]\d|\d],
    [%Y] is [\d\d\d\d], [%p] is [am|pm]. *)
Definition directive_re (c : ascii) : option re :=
  let d := Cls digit in
  let name := String c EmptyString in
  if Ascii.eqb c "d" then
    Some (Grp name (Alt (Seq (chr "3") (range "0" "1"))
                   (Alt (Seq (range "1" "2") d)
                   (Alt (Seq (chr "0") (range "1" "9"))
                   (Alt (range "1" "9")
                        (Seq (chr " ") (range "1" "9")))))))
  else if Ascii.eqb c "H" then
    Some (Grp name (Alt (Seq (chr "2") (range "0" "3"))
                   (Alt (Seq (range "0" "1") d) d)))
  else if Ascii.eqb c "I" || Ascii.eqb c "m" then
    Some (Grp name (Alt (Seq (chr "1") (range "0" "2"))
                   (Alt (Seq (chr "0") (range "1" "9")) (range "1" "9"))))
  else if Ascii.eqb c "M" then
    Some (Grp name (Alt (Seq (range "0" "5") d) d))
  else if Ascii.eqb c "Y" then
    Some (Grp name (Seq d (Seq d (Seq d d))))
  else if Ascii.eqb c "p" then
    Some (Grp name (Alt (Seq (chr_i "a") (chr_i "m")) (Seq (chr_i "p") (chr_i "m"))))
  else None.

(** The pattern of a format: a run of white space stands for [\s+], any
    other character for itself, without regard to case. *)
Fixpoint pattern (items : list item) (after_space : bool) : option re :=
  match items with
  | [] => Some Eps
  | Directive _ c :: items' =>
      r ← directive_re c; rest ← pattern items' false; Some (Seq r rest)
  | Literal c :: items' =>
      if is_space c then
        rest ← pattern items' true;
        Some (if after_space then rest else Seq (Cls space) (Seq (Many space) rest))
      else
        rest ← pattern items' false; Some (Seq (chr_i (lower_char c)) rest)
  end.

Definition is_leap (y : Z) : bool :=
  ((y mod 4 =? 0) && negb (y mod 100 =? 0)) || (y mod 400 =? 0).

Definition days_in_month (y m : Z) : Z :=
  if m =? 2 then (if is_leap y then 29 else 28)
  else if (m =? 4) || (m =? 6) || (m =? 9) || (m =? 11) then 30
  else 31.

(** The number in a group, or a default when the format has no such
    group. *)
Definition field (name : string) (groups : list (string * string)) (default : Z)
  : result Z :=
  match group name groups with
  | Some text => int text
  | None => Ok default
  end.

(** [datetime.strptime(s, format)]: the whole text has to match the
    pattern of the format, and the fields have to make a date. *)
Definition strptime (s format : string) : result datetime :=
  match pattern (parse_format format) false with
  | None => Raise ValueError
  | Some r =>
      match match_ r s with
      | None => Raise ValueError
      | Some (groups, _, rest) =>
          if truthy rest then Raise ValueError
          else
            y ← field "Y" groups 1900;
            m ← field "m" groups 1;
            d ← field "d" groups 1;
            H ← field "H" groups 0;
            I ← field "I" groups H;
            M ← field "M" groups 0;
            let ampm := lower (default EmptyString (group "p" groups)) in
            let h :=
              match group "I" groups with
              | None => H
              | Some _ =>
                  if negb (truthy ampm) || String.eqb ampm "am" then
                    (if I =? 12 then 0 else I)
                  else if String.eqb ampm "pm" then
                    (if I =? 12 then I else I + 12)
                  else I
              end in
            if (1 <=? y) && (y <=? 9999) && (1 <=? m) && (m <=? 12)
               && (1 <=? d) && (d <=? days_in_month y m) then
              Ok {| year := y; month := m; day := d; hour := h; minute := M |}
            else Raise ValueError
      end
  end.

(** [%B] under the C locale. *)
Definition month_name (m : Z) : string :=
  nth (Z.to_nat (m - 1))
      ["January"; "February"; "March"; "April"; "May"; "June"; "July";
       "August"; "September"; "October"; "November"; "December"]
      EmptyString.

Definition two_digits (n : Z) : string :=
  if n <? 10 then "0" +:+ decimal n else decimal n.

(** What one item of a format prints, for the directives the program
    prints with: [%Y] (years from 1000 on), [%B], [%d], [%I], [%M], [%p]. *)
Definition strftime_item (dt : datetime) (i : item) : string :=
  match i with
  | Literal c => String c EmptyString
  | Directive padded c =>
      let number n := if padded then two_digits n else decimal n in
      if Ascii.eqb c "Y" then decimal (year dt)
      else if Ascii.eqb c "B" then month_name (month dt)
      else if Ascii.eqb c "d" then number (day dt)
      else if Ascii.eqb c "I" then
        number (if hour dt mod 12 =? 0 then 12 else hour dt mod 12)
      else if Ascii.eqb c "M" then number (minute dt)
      else if Ascii.eqb c "p" then (if hour dt <? 12 then "AM" else "PM")
      else "%" +:+ String c EmptyString
  end.

(** [dt.strftime(format)]. *)
Definition strftime (dt : datetime) (format : string) : string :=
  join EmptyString (map (strftime_item dt) (parse_format format)).

End Datetime.

(** ** build.py *)

Module Build.

(** [convert_list]; the elements are already strings, on which [str] is the
    identity. *)
Definition convert_list (l : list string) : result string :=
  if (length l =? 1)%nat then
    getitem l 0
  else if (length l =? 2)%nat then
    a ← getitem l 0;
    b ← getitem l 1;
    mret (a +:+ " and " +:+ b)
  else
    let front := join ", " (slice_init l) in
    z ← getitem l (-1);
    mret (front +:+ ", and " +:+ z).

(** [CommandBuilder]: the command and its arguments, each tagged
    ["required"] or ["optional"].  The methods change the builder in place
    and return it; here each returns the builder as changed, which is the
    same for a builder that is built in one chain of calls. *)
Record CommandBuilder := {
  cmd : string;
  args : list (string * string);
}.

Definition new (cmd : string) : CommandBuilder := {| cmd := cmd; args := [] |}.

Definition required (self : CommandBuilder) (arg : string) : CommandBuilder :=
  {| cmd := cmd self; args := args self ++ [("required", arg)] |}.

Definition optional (self : CommandBuilder) (arg : string) : CommandBuilder :=
  {| cmd := cmd self; args := args self ++ [("optional", arg)] |}.

Definition optional_if (self : CommandBuilder) (arg : string) (condition : bool)
  : CommandBuilder :=
  if condition then optional self arg else self.

Definition required_if (self : CommandBuilder) (arg : string) (condition : bool)
  : CommandBuilder :=
  if condition then required self arg else self.

(** [__repr__]. *)
Definition repr (self : CommandBuilder) : string :=
  "\" +:+ cmd self +:+
  join EmptyString
    (map (fun oa => if String.eqb oa.1 "optional" then "[" +:+ oa.2 +:+ "]"
                    else "{" +:+ oa.2 +:+ "}")
         (args self)).

(** [convert_time]: a text that matches [^\d{1,2}:\d{2}$] is read as a
    24-hour time; in any other text [(\d{1,2}):(\d{2})\s*([AP]M)] is
    rewritten to [\1:\2 \3] and the text is read as a 12-hour time. *)
Definition convert_time (time : string) : result string :=
  let d := Re.Cls Re.digit in
  let d12 := Re.Alt (Re.Seq d d) d in
  if bool_decide (is_Some (Re.match_
       (Re.Seq d12 (Re.Seq (Re.chr ":") (Re.Seq d (Re.Seq d Re.Eos)))) time)) then
    dt ← Datetime.strptime time "%H:%M";
    mret (Datetime.strftime dt "%-I:%M %p")
  else
    let time :=
      Re.sub
        (Re.Seq (Re.Grp "1" d12) (Re.Seq (Re.chr ":") (Re.Seq (Re.Grp "2" (Re.Seq d d))
          (Re.Seq (Re.Many Re.space)
            (Re.Grp "3" (Re.Seq (Re.Alt (Re.chr "A") (Re.chr "P")) (Re.chr "M")))))))
        (fun groups =>
           default EmptyString (Re.group "1" groups) +:+ ":" +:+
           default EmptyString (Re.group "2" groups) +:+ " " +:+
           default EmptyString (Re.group "3" groups))
        time in
    dt ← Datetime.strptime time "%I:%M %p";
    mret (Datetime.strftime dt "%-I:%-M %p").

(** [convert_date]. *)
Definition convert_date (date : string) : result string :=
  dt ← Datetime.strptime date "%Y-%m-%d";
  mret (Datetime.strftime dt "%B %-d, %Y").

(** The argument of [convert_name]: one name, or a list of names. *)
Inductive names :=
| Name (m : string)
| Names (m : list string).

Definition convert_name (m : names) : result string :=
  match m with
  | Names l => convert_list l
  | Name s => Ok s
  end.

(** [itemizer] and [enumerater]. *)
Definition itemizer (l : list string) : string :=
  "\begin{itemize}" +:+ nl +:+
  join nl (map (fun i => strip ("\item " +:+ i)) l) +:+
  nl +:+ "\end{itemize}".

Definition enumerater (l : list string) : string :=
  "\begin{enumerate}" +:+ nl +:+
  join nl (map (fun i => strip ("\item " +:+ i)) l) +:+
  nl +:+ "\end{enumerate}".

(** The header of the [i]-th contributor segment in [render_work_meet]:
    the [\work] command with the contributor, the title or "NULL", and
    "0pt" for the first segment. *)
Definition work_command (i : nat) (name : names) (title : option string)
  : result string :=
  who ← convert_name name;
  let title := default EmptyString title in
  mret (repr (optional_if
                (optional (required (new "work") who)
                          (if truthy title then title else "NULL"))
                "0pt" (i =? 0)%nat)).

End Build.

(** ** md2tex.py *)

Module Md2tex.

(** *** The world outside the filter *)

Inductive fs_node :=
| File (content : list Byte.byte)
| Directory.

(** What the program does not define itself: the image directory of
    [globals.py] and what lies on disk under each path (the images do not
    change while the process runs), [hashlib.md5], [PIL.Image.open] ([None]
    when it raises), the loading of the pretrained models ([false] when it
    raises), the captioning of an opened image (conversion to RGB, feature
    extraction, beam search, decoding, first prediction), and PyYAML's
    [dump] and [load] on caption mappings ([None] when [load] raises or
    yields anything but a mapping from strings to strings, which the
    program never writes). *)
Record Env := {
  image : Type;
  image_dir : string;
  disk : string → option fs_node;
  md5_hexdigest : list Byte.byte → string;
  pil_open : list Byte.byte → option image;
  from_pretrained : bool;
  predict : image → string;
  yaml_dump : gmap string string → string;
  yaml_load : string → option (gmap string string);
}.

Inductive level := INFO | WARNING.

(** What a run does, in order. *)
Inductive event :=
| Log (lvl : level) (msg : string)
| ReadCacheFile
| WriteCacheFile (text : string)
| CacheGet (hash : string)
| CacheSet (hash caption : string)
| LoadModels
| Generate.

(** The process and its cache file: the text of [captions.yaml]; the
    dictionary that the memoised [get_caption_cache] returned, one object
    shared by every caller; the memo table of [get_caption]; whether
    [get_models] has run; the events so far. *)
Record state := {
  cache_file : string;
  caption_cache : option (gmap string string);
  captions : gmap string string;
  models : bool;
  trace : list event;
}.

Definition M (A : Type) : Type := state → result A * state.

#[export] Instance M_ret : MRet M := fun _ a st => (Ok a, st).
#[export] Instance M_bind : MBind M := fun _ _ f m st =>
  match m st with
  | (Ok a, st') => f a st'
  | (Raise e, st') => (Raise e, st')
  end.

Definition raise {A} (e : exn) : M A := fun st => (Raise e, st).

Definition lift {A} (r : result A) : M A := fun st => (r, st).

Definition gets {A} (f : state → A) : M A := fun st => (Ok (f st), st).

Definition with_event (ev : event) (st : state) : state :=
  {| cache_file := cache_file st; caption_cache := caption_cache st;
     captions := captions st; models := models st;
     trace := trace st ++ [ev] |}.

Definition emit (ev : event) : M unit := fun st => (Ok tt, with_event ev st).

Definition set_cache_file (text : string) : M unit := fun st =>
  (Ok tt, {| cache_file := text; caption_cache := caption_cache st;
             captions := captions st; models := models st;
             trace := trace st |}).

Definition set_caption_cache (d : gmap string string) : M unit := fun st =>
  (Ok tt, {| cache_file := cache_file st; caption_cache := Some d;
             captions := captions st; models := models st;
             trace := trace st |}).

Definition set_captions (m : gmap string string) : M unit := fun st =>
  (Ok tt, {| cache_file := cache_file st; caption_cache := caption_cache st;
             captions := m; models := models st;
             trace := trace st |}).

Definition set_models : M unit := fun st =>
  (Ok tt, {| cache_file := cache_file st; caption_cache := caption_cache st;
             captions := captions st; models := true;
             trace := trace st |}).

Definition logger (lvl : level) (msg : string) : M unit := emit (Log lvl msg).

(** A new process over the same files: nothing is memoised yet. *)
Definition restart (st : state) : state :=
  {| cache_file := cache_file st; caption_cache := None;
     captions := ∅; models := false; trace := [] |}.

(** *** The filter's output *)

Inductive element :=
| Code (text : string)
| CodeBlock (text : string) (classes : list string)
| Image (content : string) (url : string) (attributes : gmap string string)
| Other.

Inductive output :=
| RawInline (text : string) (format : string)
| RawBlock (text : string) (format : string).

Section Program.

Context (E : Env).

(** [get_models], memoised; the handle itself stays inside [predict]. *)
Definition get_models : M unit :=
  loaded ← gets models;
  if (loaded : bool) then mret tt
  else
    emit LoadModels;;
    logger INFO "Loading models";;
    if from_pretrained E then set_models else raise ModelError.

(** [get_caption_cache], memoised: the file is read on the first call of a
    process, later calls return the same dictionary. *)
Definition get_caption_cache : M (gmap string string) :=
  memo ← gets caption_cache;
  match memo with
  | Some d => mret d
  | None =>
      emit ReadCacheFile;;
      text ← gets cache_file;
      match yaml_load E (if truthy text then text else "{}") with
      | Some d => set_caption_cache d;; mret d
      | None => raise YamlError
      end
  end.

Definition write_caption_cache (caption_cache : gmap string string) : M unit :=
  let text := yaml_dump E caption_cache in
  emit (WriteCacheFile text);;
  set_cache_file text.

(** [Path(image_path)], joined to [image_dir] unless absolute; the path is
    kept as written, [pathlib] would also drop a "./" or a doubled "/". *)
Definition resolve (image_path : string) : string :=
  match image_path with
  | String "/" _ => image_path
  | _ => image_dir E +:+ "/" +:+ image_path
  end.

(** The body of [get_caption], under its memoisation. *)
Definition get_caption_body (image_path : string) : M string :=
  let image_path := resolve image_path in
  match disk E image_path with
  | None =>
      logger WARNING ("Image " +:+ image_path +:+ " does not exist");;
      mret EmptyString
  | Some Directory => raise ImageError
  | Some (File bytes) =>
      match pil_open E bytes with
      | None => raise ImageError
      | Some image =>
          let hash := md5_hexdigest E bytes in
          caption_cache ← get_caption_cache;
          emit (CacheGet hash);;
          match caption_cache !! hash with
          | Some caption => mret caption
          | None =>
              get_models;;
              emit Generate;;
              let caption := strip (predict E image) in
              emit (CacheSet hash caption);;
              set_caption_cache (<[hash := caption]> caption_cache);;
              write_caption_cache (<[hash := caption]> caption_cache);;
              mret caption
          end
      end
  end.

(** [get_caption]: [functools.cache] keyed by the argument; a call that
    raises is not recorded. *)
Definition get_caption (image_path : string) : M string :=
  memo ← gets captions;
  match memo !! image_path with
  | Some caption => mret caption
  | None =>
      caption ← get_caption_body image_path;
      memo ← gets captions;
      set_captions (<[image_path := caption]> memo);;
      mret caption
  end.

End Program.

(** The size option of one attribute value: a percentage becomes a
    fraction of [unit], anything else is kept. *)
Definition scaled (value unit : string) : result string :=
  if endswith value "%" then
    n ← int (removesuffix value "%");
    mret (str_div100 n +:+ unit)
  else mret value.

(** The option list of an image, from its attributes. *)
Definition image_formats (attrs : gmap string string) : result string :=
  let formats := EmptyString in
  let attributes := (fun v => removesuffix (strip v) ",") <$> attrs in
  formats ←
    match attributes !! "width" with
    | Some width =>
        width ← scaled width "\linewidth";
        mret (formats +:+ "width=" +:+ width +:+ ",")
    | None => mret formats
    end;
  formats ←
    match attributes !! "height" with
    | Some height =>
        height ← scaled height "\textheight";
        mret (formats +:+ "height=" +:+ height +:+ ",")
    | None => mret formats
    end;
  let formats := removesuffix formats "," in
  mret (if truthy formats then "[" +:+ formats +:+ "]" else formats).

Definition image_label (attrs : gmap string string) : string :=
  let label := default EmptyString (attrs !! "label") in
  if truthy label then "\label{" +:+ label +:+ "}" else EmptyString.

Definition figure (formats url caption label : string) : string :=
  "\begin{figure}[H]" +:+ nl +:+
  "\centering" +:+ nl +:+
  "\img" +:+ formats +:+ "{" +:+ url +:+ "}" +:+ nl +:+
  "\caption{" +:+ caption +:+ "}" +:+ label +:+ nl +:+
  "\end{figure}".

(** The delimited text of an inline code fragment. *)
Definition mintinline (language text : string) : result string :=
  let prefix := "\mintinline{" +:+ language +:+ "}" in
  if negb (char_in "!" text) then
    Ok (prefix +:+ "!" +:+ text +:+ "!")
  else if negb (char_in "|" text) then
    Ok (prefix +:+ "|" +:+ text +:+ "|")
  else if (count_char "{" text =? count_char "}" text)%nat then
    Ok (prefix +:+ "{" +:+ text +:+ "}")
  else
    Raise (RuntimeError ("Unable to parse code block " +:+ dquote +:+ text +:+ dquote)).

(** The caption of an image: the author's, or a generated one. *)
Definition image_caption (E : Env) (content url : string) : M string :=
  let caption := capitalize (strip content) in
  if negb (truthy caption) then
    logger WARNING ("Image " +:+ url +:+ " has no caption");;
    generated ← get_caption E url;
    let caption := capitalize generated in
    logger INFO ("Generated caption: " +:+ caption);;
    mret caption
  else mret caption.

(** [filter]; [None] leaves the node to pandoc. *)
Definition filter (E : Env) (e : element) (language : string) : M (option output) :=
  match e with
  | Code text =>
      fragment ← lift (mintinline language text);
      mret (Some (RawInline fragment "latex"))
  | CodeBlock text classes =>
      let language :=
        match getitem classes 0 with
        | Ok c => c
        | Raise _ => language
        end in
      mret (Some (RawBlock ("\begin{minted}{" +:+ language +:+ "}" +:+ nl +:+
                            text +:+ nl +:+ "\end{minted}") "latex"))
  | Image content url attributes =>
      caption ← image_caption E content url;
      let label := image_label attributes in
      formats ← lift (image_formats attributes);
      mret (Some (RawInline (figure formats url caption label) "latex"))
  | Other => mret None
  end.

(** The default of [filter]'s [language] parameter. *)
Definition default_language : string := "cpp".

End Md2tex.

(** ** Vocabulary of the statements *)

Module Spec.

Import Md2tex.

(** The mapping that [get_caption_cache] hands out in a state, if any: the
    shared dictionary once loaded, else what the cache file holds. *)
Definition cache_view (E : Env) (st : state) : option (gmap string string) :=
  match caption_cache st with
  | Some d => Some d
  | None => yaml_load E (if truthy (cache_file st) then cache_file st else "{}")
  end.

(** [c in text] and [text.count(c)], on the characters of the text. *)
Definition has_char (c : ascii) (text : string) : Prop :=
  In c (list_ascii_of_string text).

Definition occurrences (c : ascii) (text : string) : nat :=
  count_occ ascii_dec (list_ascii_of_string text) c.

(** The number of times the model was invoked in a trace. *)
Fixpoint generations (t : list event) : nat :=
  match t with
  | [] => 0
  | Generate :: t' => S (generations t')
  | _ :: t' => generations t'
  end.

(** The events of [get_caption_cache] and of [get_models] in a state. *)
Definition reading (st : state) : list event :=
  match caption_cache st with
  | Some _ => []
  | None => [ReadCacheFile]
  end.

Definition loading (st : state) : list event :=
  if models st then [] else [LoadModels; Log INFO "Loading models"].

(** The state after a run of [get_caption] calls, results dropped. *)
Fixpoint after_captions (E : Env) (urls : list string) (st : state) : state :=
  match urls with
  | [] => st
  | url :: urls' => after_captions E urls' (get_caption E url st).2
  end.

(** Capitalisation as the specification words it: the case of the first
    character changes, nothing else does. *)
Definition capitalize_first (s : string) : string :=
  match s with
  | EmptyString => EmptyString
  | String c s' => String (upper_char c) s'
  end.

(** Every memoised caption of a path that is not on disk is empty. *)
Definition memo_sound (E : Env) (st : state) : Prop :=
  ∀ url caption,
    captions st !! url = Some caption →
    disk E (resolve E url) = None →
    caption = EmptyString.

(** The cache, as the process sees it, holds [caption] under [hash]. *)
Definition cache_has (E : Env) (st : state) (hash caption : string) : Prop :=
  ∃ d, cache_view E st = Some d ∧ d !! hash = Some caption.

(** Every memoised caption of an image file is the one the cache holds for
    the bytes of that file, and the file opens as an image. *)
Definition memo_agrees (E : Env) (st : state) : Prop :=
  ∀ url caption bytes,
    captions st !! url = Some caption →
    disk E (resolve E url) = Some (File bytes) →
    is_Some (pil_open E bytes) ∧ cache_has E st (md5_hexdigest E bytes) caption.

End Spec.

(** ** A small world for the examples *)

Module Demo.

(** A line-oriented text form of a caption mapping, standing in for PyYAML
    in the examples: [{}] for the empty mapping, else one [key: value] line
    per entry. *)
Definition dump (d : gmap string string) : string :=
  match map_to_list d with
  | [] => "{}" +:+ nl
  | l => foldr (fun kv text => kv.1 +:+ ": " +:+ kv.2 +:+ nl +:+ text) EmptyString l
  end.

Fixpoint load_lines (s : string) (key : option string) (word : string)
    (d : gmap string string) : option (gmap string string) :=
  match s with
  | EmptyString =>
      match key with
      | None => if truthy word then None else Some d
      | Some _ => None
      end
  | String c s' =>
      if Ascii.eqb c (ascii_of_nat 10) then
        match key with
        | Some k => load_lines s' None EmptyString (<[k := word]> d)
        | None => None
        end
      else if Ascii.eqb c ":" && bool_decide (key = None) then
        match s' with
        | String " " s'' => load_lines s'' (Some word) EmptyString d
        | _ => None
        end
      else load_lines s' key (word +:+ String c EmptyString) d
  end.

Definition load (s : string) : option (gmap string string) :=
  if String.eqb s "{}" || String.eqb s ("{}" +:+ nl) then Some ∅
  else load_lines s None EmptyString ∅.

Definition robot_png : list Byte.byte := [Byte.x89; Byte.x50; Byte.x4e; Byte.x47].
Definition field_png : list Byte.byte := [Byte.x89; Byte.x50; Byte.x4e; Byte.x47; Byte.x0a].

(** Two images on disk, one of them under two names; a model that
    describes each. *)
Definition env : Md2tex.Env := {|
  Md2tex.image := list Byte.byte;
  Md2tex.image_dir := "/doc/images";
  Md2tex.disk := fun path =>
    if String.eqb path "/doc/images/robot.png" then Some (Md2tex.File robot_png)
    else if String.eqb path "/doc/images/copy.png" then Some (Md2tex.File robot_png)
    else if String.eqb path "/doc/images/field.png" then Some (Md2tex.File field_png)
    else if String.eqb path "/doc/images" then Some Md2tex.Directory
    else None;
  Md2tex.md5_hexdigest := fun bytes =>
    if (length bytes =? 4)%nat then "0cc175b9c0f1b6a831c399e269772661"
    else "92eb5ffee6ae2fec3ad71c777531578f";
  Md2tex.pil_open := fun bytes => Some bytes;
  Md2tex.from_pretrained := true;
  Md2tex.predict := fun image =>
    if (length image =? 4)%nat then "a robot on a field "
    else "a field of grass ";
  Md2tex.yaml_dump := dump;
  Md2tex.yaml_load := load;
|}.

(** A process that has just started, over an empty cache file. *)
Definition start : Md2tex.state := {|
  Md2tex.cache_file := EmptyString;
  Md2tex.caption_cache := None;
  Md2tex.captions := ∅;
  Md2tex.models := false;
  Md2tex.trace := [];
|}.

End Demo.

(** ** Vocabulary of the statements about runs *)

Module Run.

Import Md2tex Spec.

(** How often a trace loads the models, and how often it writes the cache
    file. *)
Fixpoint loads (t : list event) : nat :=
  match t with
  | [] => 0
  | LoadModels :: t' => S (loads t')
  | _ :: t' => loads t'
  end.

Fixpoint writes (t : list event) : nat :=
  match t with
  | [] => 0
  | WriteCacheFile _ :: t' => S (writes t')
  | _ :: t' => writes t'
  end.

(** A lookup of [url] in this state would invoke the model: the path is
    not memoised, its file opens as an image, the cache loads and has no
    entry for its bytes, and the models are loaded or can be. *)
Definition pending (E : Env) (st : state) (url : string) : Prop :=
  captions st !! url = None ∧
  ∃ bytes d,
    disk E (resolve E url) = Some (File bytes) ∧
    is_Some (pil_open E bytes) ∧
    cache_view E st = Some d ∧
    d !! md5_hexdigest E bytes = None ∧
    (models st = true ∨ from_pretrained E = true).



End Run.

(** ** Vocabulary of the statements about dates and times *)

Module Clock.

(** The hour of the 12-hour clock and the half of the day. *)
Definition hour12 (h : Z) : Z := if h mod 12 =? 0 then 12 else h mod 12.

Definition meridiem (h : Z) : string := if h <? 12 then "AM" else "PM".

(** The part of the pattern of [%Y-%m-%d] after the year. *)
Definition date_tail : Re.re :=
  default Re.Eps (Datetime.pattern (Datetime.parse_format "-%m-%d") false).

(** Tests on results, for tables. *)
Definition is_ok (r : result string) (s : string) : bool :=
  match r with
  | Ok x => String.eqb x s
  | Raise _ => false
  end.

Definition is_value_error (r : result string) : bool :=
  match r with
  | Raise ValueError => true
  | _ => false
  end.

Definition is_number (r : result Z) (n : Z) : bool :=
  match r with
  | Ok x => x =? n
  | Raise _ => false
  end.

End Clock.

(** ** Facts about the runtime *)

Example strip_example : strip "  a NASA robot  " = "a NASA robot".
Proof. reflexivity. Qed.

Example capitalize_example : capitalize "a NASA robot" = "A nasa robot".
Proof. reflexivity. Qed.

Example removesuffix_example :
  removesuffix "50%," "," = "50%" ∧ removesuffix "3in" "," = "3in"
  ∧ removesuffix "3in,," "," = "3in,".
Proof. repeat split. Qed.

Example int_examples :
  int "50" = Ok 50 ∧ int " +5_0 " = Ok 50 ∧ int "-007" = Ok (-7)
  ∧ int "12.5" = Raise ValueError ∧ int EmptyString = Raise ValueError
  ∧ int "5__0" = Raise ValueError ∧ int "- 5" = Raise ValueError.
Proof. repeat split. Qed.

Example str_div100_examples :
  str_div100 50 = "0.5" ∧ str_div100 100 = "1.0" ∧ str_div100 0 = "0.0"
  ∧ str_div100 33 = "0.33" ∧ str_div100 7 = "0.07" ∧ str_div100 (-150) = "-1.5".
Proof. repeat split. Qed.

Lemma getitem_last {A} (l : list A) (x : A) : getitem (l ++ [x]) (-1) = Ok x.
Proof.
  unfold getitem. rewrite length_app. cbn [length].
  replace (-1 <? 0) with true by reflexivity.
  assert (Hj : -1 + Z.of_nat (length l + 1) = Z.of_nat (length l)) by lia.
  rewrite Hj.
  rewrite (proj2 (Z.leb_le _ _)) by lia.
  rewrite (proj2 (Z.ltb_lt _ _)) by lia.
  cbn [andb]. rewrite Nat2Z.id.
  rewrite lookup_app_r by lia. by rewrite Nat.sub_diag.
Qed.


(** ** build.py: the list formatter *)


(** C10. The formatter fails with [IndexError] on the empty list, and
    returns a string on every non-empty list. *)
Theorem convert_list_total_on_nonempty :
  Build.convert_list [] = Raise IndexError ∧
  ∀ x l, ∃ s, Build.convert_list (x :: l) = Ok s.
Proof.
  split; [done|].
  intros x l. destruct l as [|y l]; [by exists x|].
  destruct l as [|w l]; [by eexists|].
  destruct (exists_last (l := y :: w :: l)) as (l' & z & Hl); [done|].
  assert (Hlen : (1 ≤ length l')%nat).
  { apply (f_equal length) in Hl. rewrite length_app in Hl. cbn in Hl. lia. }
  unfold Build.convert_list.
  replace (x :: y :: w :: l) with ((x :: l') ++ [z]) by (cbn; by rewrite <- Hl).
  rewrite getitem_last, length_app. cbn [length].
  replace (S (length l') + 1 =? 1)%nat with false by (symmetry; apply Nat.eqb_neq; lia).
  replace (S (length l') + 1 =? 2)%nat with false by (symmetry; apply Nat.eqb_neq; lia).
  by eexists.
Qed.

(** ** md2tex.py: inline code *)

Import Md2tex Spec.

Lemma char_in_In (c : ascii) (s : string) :
  char_in c s = true ↔ In c (list_ascii_of_string s).
Proof.
  induction s as [|a s IH]; cbn; [by split|].
  destruct (Ascii.eqb_spec a c); [by split; auto|].
  rewrite IH. split; [by right|]. by intros [?|?].
Qed.

Lemma count_char_count_occ (c : ascii) (s : string) :
  count_char c s = count_occ ascii_dec (list_ascii_of_string s) c.
Proof.
  induction s as [|a s IH]; cbn; [done|].
  destruct (Ascii.eqb_spec a c), (ascii_dec a c); congruence.
Qed.

Section InlineCode.

Context (E : Env) (language text : string) (st : state).

(** C1. Inline code without '!' is delimited with '!'; with '!' but
    without '|' it is delimited with '|'; with both, and as many '{' as
    '}', it is put between braces. *)
Theorem inline_code_delimiter :
  let prefix := "\mintinline{" +:+ language +:+ "}" in
  let inline fragment := (Ok (Some (RawInline fragment "latex")), st) in
  (¬ has_char "!" text →
   filter E (Code text) language st = inline (prefix +:+ "!" +:+ text +:+ "!")) ∧
  (has_char "!" text → ¬ has_char "|" text →
   filter E (Code text) language st = inline (prefix +:+ "|" +:+ text +:+ "|")) ∧
  (has_char "!" text → has_char "|" text →
   occurrences "{" text = occurrences "}" text →
   filter E (Code text) language st = inline (prefix +:+ "{" +:+ text +:+ "}")).
Proof.
  unfold has_char, occurrences.
  rewrite <- !count_char_count_occ, <- !char_in_In.
  cbn. unfold M_bind, lift, mintinline, mret, M_ret.
  repeat split.
  - intros Hbang. by destruct (char_in "!" text).
  - intros -> Hbar. by destruct (char_in "|" text).
  - intros -> -> ->. by rewrite Nat.eqb_refl.
Qed.

(** C2. The inline-code branch raises its error exactly when the text has
    both '!' and '|' and unequal numbers of '{' and '}'; otherwise it
    returns a fragment. *)
Theorem inline_code_error_iff :
  let unsafe :=
    has_char "!" text ∧ has_char "|" text
    ∧ occurrences "{" text ≠ occurrences "}" text in
  ((∃ e st', filter E (Code text) language st = (Raise e, st')) ↔ unsafe) ∧
  (unsafe →
   filter E (Code text) language st
   = (Raise (RuntimeError ("Unable to parse code block "
                           +:+ dquote +:+ text +:+ dquote)), st)) ∧
  (¬ unsafe →
   ∃ fragment,
     filter E (Code text) language st = (Ok (Some (RawInline fragment "latex")), st)).
Proof.
  unfold has_char, occurrences.
  rewrite <- !count_char_count_occ, <- !char_in_In.
  cbn. unfold M_bind, lift, mintinline, mret, M_ret.
  destruct (char_in "!" text); cbn.
  2: { split; [split; [by intros (? & ? & ?)|by intros [? _]]|].
       split; [by intros [? _]|]. intros _. by eexists. }
  destruct (char_in "|" text); cbn.
  2: { split; [split; [by intros (? & ? & ?)|by intros (_ & ? & _)]|].
       split; [by intros (_ & ? & _)|]. intros _. by eexists. }
  destruct (Nat.eqb_spec (count_char "{" text) (count_char "}" text)) as [Heq|Hne].
  - split; [split; [by intros (? & ? & ?)|by intros (_ & _ & ?)]|].
    split; [by intros (_ & _ & ?)|]. intros _. by eexists.
  - split; [split; [done|by eexists _, _]|].
    split; [done|]. intros Hn. destruct Hn. done.
Qed.

End InlineCode.

(** The examples of the specification: "x", "a!b" and "a!b|c". *)
Lemma inline_code_delimiter_examples :
  filter Demo.env (Code "x") "cpp" Demo.start
  = (Ok (Some (RawInline "\mintinline{cpp}!x!" "latex")), Demo.start) ∧
  filter Demo.env (Code "a!b") "cpp" Demo.start
  = (Ok (Some (RawInline "\mintinline{cpp}|a!b|" "latex")), Demo.start) ∧
  filter Demo.env (Code "a!b|c") "cpp" Demo.start
  = (Ok (Some (RawInline "\mintinline{cpp}{a!b|c}" "latex")), Demo.start).
Proof.
  split; [|split].
  - apply (inline_code_delimiter Demo.env "cpp" "x" Demo.start).
    cbn. intros [|[]]; done.
  - apply (inline_code_delimiter Demo.env "cpp" "a!b" Demo.start).
    + cbn. auto.
    + cbn. intros [|[|[|[]]]]; done.
  - apply (inline_code_delimiter Demo.env "cpp" "a!b|c" Demo.start); cbn; auto 10.
Defined.

(** The example of the specification that cannot be delimited. *)
Lemma inline_code_error_example :
  filter Demo.env (Code "a!b|c{") "cpp" Demo.start
  = (Raise (RuntimeError ("Unable to parse code block " +:+ dquote +:+ "a!b|c{" +:+ dquote)),
     Demo.start).
Proof.
  apply (inline_code_error_iff Demo.env "cpp" "a!b|c{" Demo.start).
  cbn. split; [auto 10|]. split; [auto 10|]. discriminate.
Defined.

(** ** Suffixes *)

Lemma append_cons (x : ascii) (a b : string) :
  String x a +:+ b = String x (a +:+ b).
Proof. reflexivity. Qed.

Lemma append_assoc (a b c : string) : (a +:+ b) +:+ c = a +:+ b +:+ c.
Proof. induction a as [|x a IH]; [done|]. by rewrite !append_cons, IH. Qed.






(** ** md2tex.py: the size options of an image *)



(** ** md2tex.py: the caption cache and the caption lookup *)

Lemma generations_app (t u : list event) :
  generations (t ++ u) = (generations t + generations u)%nat.
Proof.
  induction t as [|e t IH]; [done|].
  destruct e; cbn; rewrite ?IH; done.
Qed.

(** One step of symbolic execution of a monadic program. *)
Ltac run :=
  cbv [mbind mret M_bind M_ret gets emit with_event logger raise lift
       set_cache_file set_caption_cache set_captions set_models];
  cbn [cache_file caption_cache captions models trace fst snd].

Section Captions.

Context (E : Env).

Lemma get_caption_cache_view (st : state) (d : gmap string string) :
  cache_view E st = Some d →
  get_caption_cache E st
  = (Ok d, {| cache_file := cache_file st; caption_cache := Some d;
              captions := captions st; models := models st;
              trace := trace st ++ reading st |}).
Proof.
  unfold cache_view, reading, get_caption_cache. destruct st as [f c m l t].
  destruct c as [d'|]; run.
  - intros [= ->]. by rewrite app_nil_r.
  - intros ->. done.
Qed.

Lemma get_models_ready (st : state) :
  models st = true ∨ from_pretrained E = true →
  get_models E st
  = (Ok tt, {| cache_file := cache_file st; caption_cache := caption_cache st;
               captions := captions st; models := true;
               trace := trace st ++ loading st |}).
Proof.
  unfold loading, get_models. destruct st as [f c m l t].
  destruct l; run.
  - intros _. by rewrite app_nil_r.
  - intros [?| ->]; [done|]. by rewrite <- app_assoc.
Qed.

Lemma get_caption_body_missing (url : string) (st : state) :
  disk E (resolve E url) = None →
  get_caption_body E url st
  = (Ok EmptyString,
     {| cache_file := cache_file st; caption_cache := caption_cache st;
        captions := captions st; models := models st;
        trace := trace st
                 ++ [Log WARNING ("Image " +:+ resolve E url +:+ " does not exist")] |}).
Proof. unfold get_caption_body. intros ->. by run. Qed.

Lemma get_caption_body_hit (url : string) (bytes : list Byte.byte)
    (img : image E) (d : gmap string string) (c : string) (st : state) :
  disk E (resolve E url) = Some (File bytes) →
  pil_open E bytes = Some img →
  cache_view E st = Some d →
  d !! md5_hexdigest E bytes = Some c →
  get_caption_body E url st
  = (Ok c,
     {| cache_file := cache_file st; caption_cache := Some d;
        captions := captions st; models := models st;
        trace := trace st ++ reading st ++ [CacheGet (md5_hexdigest E bytes)] |}).
Proof.
  unfold get_caption_body. intros -> -> Hview Hget.
  cbv [mbind M_bind]. rewrite (get_caption_cache_view _ _ Hview).
  run. rewrite Hget. run. by rewrite <- app_assoc.
Qed.

Lemma get_caption_body_miss (url : string) (bytes : list Byte.byte)
    (img : image E) (d : gmap string string) (st : state) :
  disk E (resolve E url) = Some (File bytes) →
  pil_open E bytes = Some img →
  cache_view E st = Some d →
  d !! md5_hexdigest E bytes = None →
  models st = true ∨ from_pretrained E = true →
  let h := md5_hexdigest E bytes in
  let c := strip (predict E img) in
  let d' := <[h := c]> d in
  get_caption_body E url st
  = (Ok c,
     {| cache_file := yaml_dump E d'; caption_cache := Some d';
        captions := captions st; models := true;
        trace := trace st ++ reading st ++ [CacheGet h] ++ loading st
                 ++ [Generate; CacheSet h c; WriteCacheFile (yaml_dump E d')] |}).
Proof.
  intros Hdisk Hopen Hview Hget Hmodels h c d'.
  unfold get_caption_body. rewrite Hdisk, Hopen.
  cbv [mbind M_bind]. rewrite (get_caption_cache_view _ _ Hview).
  run. rewrite Hget.
  cbv [mbind M_bind]. rewrite get_models_ready by done.
  unfold write_caption_cache, loading. run.
  fold c. fold d'. by rewrite <- !app_assoc.
Qed.

Lemma get_caption_cache_captions (st : state) :
  captions (get_caption_cache E st).2 = captions st.
Proof.
  unfold get_caption_cache. destruct st as [f [d|] m l t]; run; [done|].
  by destruct (yaml_load E _).
Qed.

Lemma get_caption_body_captions (url : string) (st : state) :
  captions (get_caption_body E url st).2 = captions st.
Proof.
  unfold get_caption_body.
  destruct (disk E (resolve E url)) as [[bytes|]|]; [|done|done].
  destruct (pil_open E bytes) as [img|]; [|done].
  cbv [mbind M_bind].
  pose proof (get_caption_cache_captions st) as Hc.
  destruct (get_caption_cache E st) as [[d|e] st1]; [|done].
  cbn [snd] in Hc. destruct st1 as [f1 c1 m1 l1 t1]. cbn in Hc. subst m1.
  run. destruct (d !! md5_hexdigest E bytes) as [c|]; [done|].
  unfold get_models, write_caption_cache. run.
  destruct l1; run; [done|]. by destruct (from_pretrained E).
Qed.

Lemma get_caption_memoised (url c : string) (st : state) :
  captions st !! url = Some c → get_caption E url st = (Ok c, st).
Proof. unfold get_caption. run. by intros ->. Qed.

Lemma get_caption_fresh (url : string) (st : state) :
  captions st !! url = None →
  get_caption E url st
  = match get_caption_body E url st with
    | (Ok c, st') =>
        (Ok c, {| cache_file := cache_file st'; caption_cache := caption_cache st';
                  captions := <[url := c]> (captions st); models := models st';
                  trace := trace st' |})
    | (Raise e, st') => (Raise e, st')
    end.
Proof.
  intros Hmemo. unfold get_caption. run. rewrite Hmemo.
  pose proof (get_caption_body_captions url st) as Hc.
  destruct (get_caption_body E url st) as [[c|e] st']; [|done].
  cbn [snd] in Hc. by rewrite Hc.
Qed.

(** The memo table of [get_caption] only grows. *)
Lemma get_caption_keeps_memo (url url' c : string) (st : state) :
  captions st !! url = Some c →
  captions (get_caption E url' st).2 !! url = Some c.
Proof.
  intros Hmemo. destruct (captions st !! url') as [c'|] eqn:Hmemo'.
  - by rewrite (get_caption_memoised _ _ _ Hmemo').
  - rewrite (get_caption_fresh _ _ Hmemo').
    pose proof (get_caption_body_captions url' st) as Hc.
    destruct (get_caption_body E url' st) as [[c'|e] st']; cbn [snd] in *.
    + cbn. rewrite lookup_insert_ne; [done|]. congruence.
    + by rewrite Hc.
Qed.

Lemma after_captions_keeps_memo (urls : list string) (url c : string) (st : state) :
  captions st !! url = Some c →
  captions (after_captions E urls st) !! url = Some c.
Proof.
  revert st. induction urls as [|url' urls IH]; intros st Hmemo; [done|].
  cbn [after_captions]. apply IH. by apply get_caption_keeps_memo.
Qed.

Lemma get_caption_memo_sound (url : string) (st : state) :
  memo_sound E st → memo_sound E (get_caption E url st).2.
Proof.
  intros Hsound. destruct (captions st !! url) as [c|] eqn:Hmemo.
  - by rewrite (get_caption_memoised _ _ _ Hmemo).
  - rewrite (get_caption_fresh _ _ Hmemo).
    pose proof (get_caption_body_captions url st) as Hc.
    destruct (disk E (resolve E url)) as [node|] eqn:Hdisk.
    + destruct (get_caption_body E url st) as [[c|e] st']; cbn [snd] in *.
      * intros u v. cbn. destruct (decide (url = u)) as [<-|Hne].
        -- intros _ Hnone. congruence.
        -- rewrite lookup_insert_ne by done. apply Hsound.
      * intros u v. rewrite Hc. apply Hsound.
    + rewrite (get_caption_body_missing _ _ Hdisk).
      intros u v. cbn. destruct (decide (url = u)) as [<-|Hne].
      * rewrite lookup_insert_eq. by intros [= <-].
      * rewrite lookup_insert_ne by done. apply Hsound.
Qed.

Lemma image_caption_author (content url : string) (st : state) :
  truthy (capitalize (strip content)) = true →
  image_caption E content url st = (Ok (capitalize (strip content)), st).
Proof. unfold image_caption. by intros ->. Qed.

Lemma image_caption_generated (content url : string) (st : state) :
  truthy (capitalize (strip content)) = false →
  image_caption E content url st
  = match get_caption E url
            (with_event (Log WARNING ("Image " +:+ url +:+ " has no caption")) st) with
    | (Ok c, st') =>
        (Ok (capitalize c),
         with_event (Log INFO ("Generated caption: " +:+ capitalize c)) st')
    | (Raise e, st') => (Raise e, st')
    end.
Proof.
  unfold image_caption. intros ->. cbn [negb].
  cbv [mbind M_bind logger emit]. by destruct (get_caption E url _) as [[c|e] st'].
Qed.

Lemma filter_image (content url : string) (attributes : gmap string string)
    (language : string) (st : state) :
  filter E (Image content url attributes) language st
  = match image_caption E content url st with
    | (Ok caption, st') =>
        (match image_formats attributes with
         | Ok formats =>
             Ok (Some (RawInline (figure formats url caption (image_label attributes))
                                 "latex"))
         | Raise e => Raise e
         end, st')
    | (Raise e, st') => (Raise e, st')
    end.
Proof.
  cbn [filter]. cbv [mbind M_bind lift].
  destruct (image_caption E content url st) as [[c|e] st']; [|done].
  by destruct (image_formats attributes).
Qed.

Lemma get_caption_missing (url : string) (st : state) :
  disk E (resolve E url) = None →
  memo_sound E st →
  get_caption E url st
  = (Ok EmptyString,
     {| cache_file := cache_file st; caption_cache := caption_cache st;
        captions := <[url := EmptyString]> (captions st); models := models st;
        trace := trace st
                 ++ match captions st !! url with
                    | None => [Log WARNING ("Image " +:+ resolve E url +:+ " does not exist")]
                    | Some _ => []
                    end |}).
Proof.
  intros Hdisk Hsound. destruct (captions st !! url) as [c|] eqn:Hmemo.
  - assert (c = EmptyString) as -> by (by apply (Hsound url)).
    rewrite (get_caption_memoised _ _ _ Hmemo).
    rewrite (insert_id _ _ _ Hmemo), app_nil_r. by destruct st.
  - by rewrite (get_caption_fresh _ _ Hmemo), (get_caption_body_missing _ _ Hdisk).
Qed.

(** C6. When the image is not on disk, the caption lookup returns the
    empty string without raising: the cache file, the cache dictionary and
    the models are as before, the model is not invoked, and the only event
    is the warning (on a repeated lookup of the path the memoised empty
    string comes back without any event); the filter goes on and returns
    the figure with an empty caption. *)
Theorem missing_image_empty_caption (url : string) (st : state) :
  disk E (resolve E url) = None →
  memo_sound E st →
  let warning := Log WARNING ("Image " +:+ resolve E url +:+ " does not exist") in
  let logged := match captions st !! url with None => [warning] | Some _ => [] end in
  get_caption E url st
  = (Ok EmptyString,
     {| cache_file := cache_file st; caption_cache := caption_cache st;
        captions := <[url := EmptyString]> (captions st); models := models st;
        trace := trace st ++ logged |}) ∧
  memo_sound E (get_caption E url st).2 ∧
  ∀ content attributes language formats,
    is_ascii content = true →
    truthy (capitalize (strip content)) = false →
    image_formats attributes = Ok formats →
    filter E (Image content url attributes) language st
    = (Ok (Some (RawInline (figure formats url EmptyString (image_label attributes))
                           "latex")),
       {| cache_file := cache_file st; caption_cache := caption_cache st;
          captions := <[url := EmptyString]> (captions st); models := models st;
          trace := trace st
                   ++ [Log WARNING ("Image " +:+ url +:+ " has no caption")]
                   ++ logged ++ [Log INFO "Generated caption: "] |}).
Proof.
  intros Hdisk Hsound warning logged. split; [by apply get_caption_missing|].
  split; [by apply get_caption_memo_sound|].
  intros content attributes language formats _ Hempty Hformats.
  rewrite filter_image, (image_caption_generated _ _ _ Hempty).
  rewrite get_caption_missing by done. rewrite Hformats.
  cbv [with_event]. cbn [cache_file caption_cache captions models trace capitalize].
  by rewrite <- !app_assoc.
Qed.

Lemma get_caption_hit (url : string) (bytes : list Byte.byte)
    (img : image E) (d : gmap string string) (c : string) (st : state) :
  captions st !! url = None →
  disk E (resolve E url) = Some (File bytes) →
  pil_open E bytes = Some img →
  cache_view E st = Some d →
  d !! md5_hexdigest E bytes = Some c →
  get_caption E url st
  = (Ok c,
     {| cache_file := cache_file st; caption_cache := Some d;
        captions := <[url := c]> (captions st); models := models st;
        trace := trace st ++ reading st ++ [CacheGet (md5_hexdigest E bytes)] |}).
Proof.
  intros Hmemo Hdisk Hopen Hview Hget.
  by rewrite (get_caption_fresh _ _ Hmemo),
    (get_caption_body_hit _ _ _ _ _ _ Hdisk Hopen Hview Hget).
Qed.

Lemma get_caption_miss (url : string) (bytes : list Byte.byte)
    (img : image E) (d : gmap string string) (st : state) :
  captions st !! url = None →
  disk E (resolve E url) = Some (File bytes) →
  pil_open E bytes = Some img →
  cache_view E st = Some d →
  d !! md5_hexdigest E bytes = None →
  models st = true ∨ from_pretrained E = true →
  let h := md5_hexdigest E bytes in
  let c := strip (predict E img) in
  let d' := <[h := c]> d in
  get_caption E url st
  = (Ok c,
     {| cache_file := yaml_dump E d'; caption_cache := Some d';
        captions := <[url := c]> (captions st); models := true;
        trace := trace st ++ reading st ++ [CacheGet h] ++ loading st
                 ++ [Generate; CacheSet h c; WriteCacheFile (yaml_dump E d')] |}).
Proof.
  intros Hmemo Hdisk Hopen Hview Hget Hmodels h c d'.
  by rewrite (get_caption_fresh _ _ Hmemo),
    (get_caption_body_miss _ _ _ _ _ Hdisk Hopen Hview Hget Hmodels).
Qed.

Lemma generations_reading (st : state) : generations (reading st) = 0%nat.
Proof. unfold reading. by destruct (caption_cache st). Qed.

Lemma generations_loading (st : state) : generations (loading st) = 0%nat.
Proof. unfold loading. by destruct (models st). Qed.

(** C3, as the code has it. On a cache miss the lookup invokes the model
    once, strips the generated caption, stores the stripped caption under
    the content hash, writes the cache file, and returns what it stored;
    the filter capitalises the returned caption for the figure, and that
    capitalised text is not what the cache holds. *)
Theorem cache_miss_stores_generated_caption (url content : string)
    (bytes : list Byte.byte) (img : image E) (d : gmap string string) (st : state) :
  is_ascii content = true →
  truthy (capitalize (strip content)) = false →
  captions st !! url = None →
  disk E (resolve E url) = Some (File bytes) →
  pil_open E bytes = Some img →
  cache_view E st = Some d →
  d !! md5_hexdigest E bytes = None →
  models st = true ∨ from_pretrained E = true →
  is_ascii (predict E img) = true →
  let h := md5_hexdigest E bytes in
  let c := strip (predict E img) in
  let d' := <[h := c]> d in
  let events :=
    reading st ++ [CacheGet h] ++ loading st
    ++ [Generate; CacheSet h c; WriteCacheFile (yaml_dump E d')] in
  get_caption E url st
  = (Ok c,
     {| cache_file := yaml_dump E d'; caption_cache := Some d';
        captions := <[url := c]> (captions st); models := true;
        trace := trace st ++ events |}) ∧
  image_caption E content url st
  = (Ok (capitalize c),
     {| cache_file := yaml_dump E d'; caption_cache := Some d';
        captions := <[url := c]> (captions st); models := true;
        trace := trace st
                 ++ [Log WARNING ("Image " +:+ url +:+ " has no caption")]
                 ++ events
                 ++ [Log INFO ("Generated caption: " +:+ capitalize c)] |}) ∧
  generations events = 1%nat ∧
  d' !! h = Some c.
Proof.
  intros _ Hempty Hmemo Hdisk Hopen Hview Hget Hmodels _ h c d' events.
  split; [by apply get_caption_miss|].
  split; [|split].
  - rewrite (image_caption_generated _ _ _ Hempty).
    rewrite (get_caption_miss url bytes img d (with_event _ st));
      [|done|done|done|done|done|done].
    cbv [with_event reading loading].
    cbn [cache_file caption_cache captions models trace].
    fold h c d'. fold (reading st) (loading st). do 2 f_equal. subst events.
    by rewrite <- !app_assoc.
  - subst events. rewrite !generations_app, generations_reading, generations_loading.
    done.
  - subst d'. apply lookup_insert_eq.
Qed.

Lemma get_caption_cache_fails (st : state) :
  cache_view E st = None →
  get_caption_cache E st = (Raise YamlError, with_event ReadCacheFile st).
Proof.
  unfold cache_view, get_caption_cache. destruct st as [f [d|] m l t]; run; [done|].
  by intros ->.
Qed.

Lemma get_models_result (st : state) :
  (get_models E st).1 = Ok tt ∨
  get_models E st
  = (Raise ModelError,
     {| cache_file := cache_file st; caption_cache := caption_cache st;
        captions := captions st; models := models st;
        trace := trace st ++ loading st |}).
Proof.
  destruct (models st) eqn:Hm; [left; by rewrite get_models_ready by auto|].
  destruct (from_pretrained E) eqn:Hp; [left; by rewrite get_models_ready by auto|].
  right. unfold get_models, loading. destruct st as [f c m l t].
  cbn in Hm. subst l. run. rewrite Hp. by rewrite <- app_assoc.
Qed.

(** What the body of the lookup leaves in the cache: the entries it found,
    and under the hash of the image the caption it returns. *)
Lemma get_caption_body_cache (url : string) (st : state) :
  (∀ h c, cache_has E st h c → cache_has E (get_caption_body E url st).2 h c) ∧
  (∀ bytes c st',
     disk E (resolve E url) = Some (File bytes) →
     get_caption_body E url st = (Ok c, st') →
     is_Some (pil_open E bytes) ∧ cache_has E st' (md5_hexdigest E bytes) c).
Proof.
  unfold get_caption_body.
  destruct (disk E (resolve E url)) as [[bytes|]|] eqn:Hdisk; [|done|done].
  destruct (pil_open E bytes) as [img|] eqn:Hopen; [|done].
  cbv [mbind M_bind]. destruct (cache_view E st) as [d|] eqn:Hview.
  2: { rewrite (get_caption_cache_fails _ Hview). split; [|done].
       intros h c (d & Hd & _). congruence. }
  rewrite (get_caption_cache_view _ _ Hview). run.
  destruct (d !! md5_hexdigest E bytes) as [c0|] eqn:Hget; run.
  { split.
    - intros h c (d0 & Hd0 & Hc). exists d. split; [done|]. congruence.
    - intros b c st' [= <-] [= <- <-]. split; [done|]. by exists d. }
  cbv [mbind M_bind].
  match goal with |- context [get_models E ?s] =>
    destruct (get_models_result s) as [Hok|Hfail]; [|rewrite Hfail] end.
  - rewrite get_models_ready.
    2: { match type of Hok with (get_models E ?s).1 = _ =>
           destruct (models s) eqn:Hm; [by left|right] end.
         destruct (from_pretrained E) eqn:Hp; [done|].
         cbn in Hm. unfold get_models in Hok. revert Hok. run.
         rewrite Hm. run. by rewrite Hp. }
    unfold write_caption_cache. run. split.
    + intros h c (d0 & Hd0 & Hc). eexists. split; [done|].
      assert (d0 = d) as -> by congruence.
      rewrite lookup_insert_ne; [done|]. congruence.
    + intros b c st' [= <-] [= <- <-]. split; [done|].
      eexists. split; [done|]. apply lookup_insert_eq.
  - split; [|done]. intros h c (d0 & Hd0 & Hc). exists d. split; [done|]. congruence.
Qed.

Lemma cache_view_captions (st : state) (m : gmap string string) :
  cache_view E {| cache_file := cache_file st; caption_cache := caption_cache st;
                  captions := m; models := models st; trace := trace st |}
  = cache_view E st.
Proof. done. Qed.

(** The entries of the cache stay as they are through a lookup. *)
Lemma get_caption_keeps_cache (url h c : string) (st : state) :
  cache_has E st h c → cache_has E (get_caption E url st).2 h c.
Proof.
  intros Hhas. destruct (captions st !! url) as [c'|] eqn:Hmemo.
  - by rewrite (get_caption_memoised _ _ _ Hmemo).
  - rewrite (get_caption_fresh _ _ Hmemo).
    pose proof (proj1 (get_caption_body_cache url st) h c Hhas) as Hbody.
    by destruct (get_caption_body E url st) as [[c'|e] st'].
Qed.

Lemma get_caption_memo_agrees (url : string) (st : state) :
  memo_agrees E st → memo_agrees E (get_caption E url st).2.
Proof.
  intros Hagrees u c bytes Hu Hdisk.
  destruct (captions st !! url) as [c'|] eqn:Hmemo.
  { rewrite (get_caption_memoised _ _ _ Hmemo) in *. cbn [snd] in *.
    exact (Hagrees _ _ _ Hu Hdisk). }
  rewrite (get_caption_fresh _ _ Hmemo) in *.
  pose proof (get_caption_body_cache url st) as [Hkeep Hnew].
  pose proof (get_caption_body_captions url st) as Hcaptions.
  destruct (get_caption_body E url st) as [[c'|e] st'] eqn:Hbody; cbn [snd] in *.
  - cbn [captions] in Hu. destruct (decide (url = u)) as [<-|Hne].
    + rewrite lookup_insert_eq in Hu. injection Hu as <-.
      by apply (Hnew bytes c' st').
    + rewrite lookup_insert_ne in Hu by done.
      destruct (Hagrees _ _ _ Hu Hdisk) as [Hopen Hhas].
      split; [done|]. by apply Hkeep.
  - rewrite Hcaptions in Hu. destruct (Hagrees _ _ _ Hu Hdisk) as [Hopen Hhas].
    split; [done|]. by apply Hkeep.
Qed.

Lemma after_captions_memo_agrees (urls : list string) (st : state) :
  memo_agrees E st → memo_agrees E (after_captions E urls st).
Proof.
  revert st. induction urls as [|url urls IH]; intros st H; [done|].
  cbn [after_captions]. by apply IH, get_caption_memo_agrees.
Qed.

Lemma after_captions_keeps_cache (urls : list string) (h c : string) (st : state) :
  cache_has E st h c → cache_has E (after_captions E urls st) h c.
Proof.
  revert st. induction urls as [|url urls IH]; intros st H; [done|].
  cbn [after_captions]. by apply IH, get_caption_keeps_cache.
Qed.

(** A lookup of an image whose bytes the cache knows returns the cached
    caption without invoking the model. *)
Lemma get_caption_known_bytes (url : string) (bytes : list Byte.byte)
    (c : string) (st : state) :
  memo_agrees E st →
  disk E (resolve E url) = Some (File bytes) →
  is_Some (pil_open E bytes) →
  cache_has E st (md5_hexdigest E bytes) c →
  ∃ st', get_caption E url st = (Ok c, st')
         ∧ generations (trace st') = generations (trace st)
         ∧ cache_file st' = cache_file st.
Proof.
  intros Hagrees Hdisk [img Hopen] (d & Hview & Hget).
  destruct (captions st !! url) as [c'|] eqn:Hmemo.
  - destruct (Hagrees _ _ _ Hmemo Hdisk) as [_ (d' & Hview' & Hget')].
    assert (c' = c) as -> by congruence.
    exists st. by rewrite (get_caption_memoised _ _ _ Hmemo).
  - eexists. split; [by apply (get_caption_hit url bytes img d c)|].
    cbn [trace cache_file]. split; [|done].
    rewrite !generations_app, generations_reading. cbn. lia.
Qed.

(** Once a lookup of an image has returned, every later lookup in the
    process of an image with the same bytes returns the same caption
    without invoking the model. *)
Lemma get_caption_same_bytes (url url' : string) (bytes : list Byte.byte)
    (c : string) (urls : list string) (st st1 : state) :
  memo_agrees E st →
  disk E (resolve E url) = Some (File bytes) →
  disk E (resolve E url') = Some (File bytes) →
  get_caption E url st = (Ok c, st1) →
  ∃ st3, get_caption E url' (after_captions E urls st1) = (Ok c, st3)
         ∧ generations (trace st3) = generations (trace (after_captions E urls st1))
         ∧ cache_file st3 = cache_file (after_captions E urls st1).
Proof.
  intros Hagrees Hdisk Hdisk' Hget.
  assert (Hst1 : st1 = (get_caption E url st).2) by (by rewrite Hget).
  assert (Hagrees1 : memo_agrees E st1)
    by (rewrite Hst1; by apply get_caption_memo_agrees).
  assert (Hmemo1 : captions st1 !! url = Some c).
  { destruct (captions st !! url) as [c'|] eqn:Hmemo.
    - rewrite (get_caption_memoised _ _ _ Hmemo) in Hget. congruence.
    - rewrite (get_caption_fresh _ _ Hmemo) in Hget.
      destruct (get_caption_body E url st) as [[c'|e] st']; [|done].
      injection Hget as <- <-. apply lookup_insert_eq. }
  destruct (Hagrees1 _ _ _ Hmemo1 Hdisk) as [Hopen Hhas].
  apply (get_caption_known_bytes url' bytes); [|done|done|].
  - by apply after_captions_memo_agrees.
  - by apply after_captions_keeps_cache.
Qed.

(** C5, as the code has it. After the first miss for an image, the same
    call is answered from the memo table with the state untouched, however
    many lookups came between; any later lookup in the process of a path
    with the same bytes, and a lookup of those bytes in the next process,
    return the caption stored at the miss without invoking the model. *)
Theorem caption_lookup_idempotent (url url' : string)
    (bytes : list Byte.byte) (img : image E) (d : gmap string string) (st : state) :
  memo_agrees E st →
  captions st !! url = None →
  disk E (resolve E url) = Some (File bytes) →
  pil_open E bytes = Some img →
  cache_view E st = Some d →
  d !! md5_hexdigest E bytes = None →
  models st = true ∨ from_pretrained E = true →
  disk E (resolve E url') = Some (File bytes) →
  let h := md5_hexdigest E bytes in
  let c := strip (predict E img) in
  let d' := <[h := c]> d in
  yaml_load E (yaml_dump E d') = Some d' →
  truthy (yaml_dump E d') = true →
  ∃ st1,
    get_caption E url st = (Ok c, st1) ∧
    caption_cache st1 = Some d' ∧
    d' !! h = Some c ∧
    (∀ urls,
       let st2 := after_captions E urls st1 in
       get_caption E url st2 = (Ok c, st2) ∧
       ∃ st3, get_caption E url' st2 = (Ok c, st3)
              ∧ generations (trace st3) = generations (trace st2)
              ∧ cache_file st3 = cache_file st2) ∧
    (∃ st2, get_caption E url' (restart st1) = (Ok c, st2)
            ∧ trace st2 = [ReadCacheFile; CacheGet h]
            ∧ caption_cache st2 = Some d' ∧ cache_file st2 = cache_file st1).
Proof.
  intros Hagrees Hmemo Hdisk Hopen Hview Hget Hmodels Hdisk' h c d' Hload Hdump.
  pose proof (get_caption_miss _ _ _ _ _ Hmemo Hdisk Hopen Hview Hget Hmodels)
    as Hmiss. cbv zeta in Hmiss. fold h c d' in Hmiss.
  eexists. split; [exact Hmiss|]. split; [done|].
  assert (Hc : d' !! h = Some c) by apply lookup_insert_eq.
  split; [done|]. split.
  - intros urls st2. split.
    + apply get_caption_memoised, after_captions_keeps_memo.
      cbn. apply lookup_insert_eq.
    + by apply (get_caption_same_bytes url url' bytes c urls st).
  - eexists. split.
    + apply (get_caption_hit url' bytes img d' c); try done.
      unfold cache_view. cbn. by rewrite Hdump.
    + done.
Qed.


(** C4, as the code has it. An author caption that is not empty after
    trimming and capitalising is the caption of the figure, and the state
    is untouched: no cache, no model. Its first character is in upper case
    and every other character in lower case. *)
Theorem author_caption_used (content url : string)
    (attributes : gmap string string) (language : string) (st : state) :
  is_ascii content = true →
  truthy (capitalize (strip content)) = true →
  let trimmed := strip content in
  let caption := capitalize trimmed in
  image_caption E content url st = (Ok caption, st) ∧
  filter E (Image content url attributes) language st
  = (match image_formats attributes with
     | Ok formats =>
         Ok (Some (RawInline (figure formats url caption (image_label attributes))
                             "latex"))
     | Raise e => Raise e
     end, st) ∧
  String.length caption = String.length trimmed ∧
  (∀ a, String.get 0 trimmed = Some a → String.get 0 caption = Some (upper_char a)) ∧
  (∀ i a, String.get (S i) trimmed = Some a →
          String.get (S i) caption = Some (lower_char a)).
Proof.
  intros _ Hauthor trimmed caption.
  split; [by apply image_caption_author|].
  split; [by rewrite filter_image, image_caption_author|].
  subst caption. clear Hauthor. destruct trimmed as [|x s]; [done|].
  cbn [capitalize String.length String.get].
  assert (Hlower : ∀ i a, String.get i s = Some a →
                          String.get i (lower s) = Some (lower_char a)).
  { clear. induction s as [|y s IH]; intros i a; [done|].
    destruct i; cbn [lower String.get]; [by intros [= ->]|apply IH]. }
  split; [|split].
  - f_equal. clear. induction s as [|y s IH]; cbn [lower String.length]; congruence.
  - by intros a [= ->].
  - apply Hlower.
Qed.

End Captions.

(** ** The statements on the small world *)

Lemma start_memo_sound : memo_sound Demo.env Demo.start.
Proof. intros url caption H. cbn in H. by rewrite lookup_empty in H. Qed.



(** C3 on the robot image: the cache holds the caption as generated, the
    figure gets it capitalised. *)
Lemma cached_caption_not_capitalised :
  ∃ st' d stored returned,
    image_caption Demo.env EmptyString "robot.png" Demo.start = (Ok returned, st') ∧
    generations (trace st') = 1%nat ∧
    caption_cache st' = Some d ∧
    d !! md5_hexdigest Demo.env Demo.robot_png = Some stored ∧
    stored = "a robot on a field" ∧
    returned = "A robot on a field" ∧
    stored ≠ returned ∧
    stored ≠ capitalize (strip (predict Demo.env Demo.robot_png)).
Proof.
  eexists _, _, _, _. split; [by vm_compute|].
  split; [by vm_compute|]. split; [done|].
  split; [by vm_compute|]. by vm_compute.
Qed.

Lemma cache_miss_on_robot_image :
  (get_caption Demo.env "robot.png" Demo.start).1 = Ok "a robot on a field" ∧
  (image_caption Demo.env EmptyString "robot.png" Demo.start).1
  = Ok "A robot on a field" ∧
  cache_file (get_caption Demo.env "robot.png" Demo.start).2
  = "0cc175b9c0f1b6a831c399e269772661: a robot on a field" +:+ nl.
Proof.
  assert (H1 : captions Demo.start !! "robot.png" = None) by (vm_compute; reflexivity).
  assert (H2 : disk Demo.env (resolve Demo.env "robot.png") = Some (File Demo.robot_png))
    by (vm_compute; reflexivity).
  assert (H3 : cache_view Demo.env Demo.start = Some ∅) by (vm_compute; reflexivity).
  assert (H4 : (∅ : gmap string string) !! md5_hexdigest Demo.env Demo.robot_png = None)
    by (vm_compute; reflexivity).
  destruct (cache_miss_stores_generated_caption Demo.env "robot.png" EmptyString
              Demo.robot_png Demo.robot_png ∅ Demo.start
              eq_refl eq_refl H1 H2 eq_refl H3 H4 (or_intror eq_refl) eq_refl)
    as (Hget & Hcaption & _ & _).
  rewrite Hget, Hcaption. cbn [fst snd cache_file]. vm_compute. repeat split.
Defined.

(** C4 on "a NASA robot": the filter does not keep "NASA". *)
Lemma author_caption_lowercased :
  filter Demo.env (Image "a NASA robot" "robot.png" ∅) "cpp" Demo.start
  = (Ok (Some (RawInline (figure EmptyString "robot.png" "A nasa robot" EmptyString)
                         "latex")),
     Demo.start) ∧
  capitalize_first (strip "a NASA robot") = "A NASA robot" ∧
  capitalize (strip "a NASA robot") ≠ capitalize_first (strip "a NASA robot").
Proof. split; [by vm_compute|]. split; by vm_compute. Qed.

Lemma author_caption_on_robot_image :
  filter Demo.env (Image "  a NASA robot " "robot.png" {[ "label" := "fig:robot" ]})
         "cpp" Demo.start
  = (Ok (Some (RawInline (figure EmptyString "robot.png" "A nasa robot"
                                 "\label{fig:robot}") "latex")),
     Demo.start).
Proof.
  destruct (author_caption_used Demo.env "  a NASA robot " "robot.png"
              {[ "label" := "fig:robot" ]} "cpp" Demo.start)
    as (_ & Hfilter & _); [reflexivity|reflexivity|].
  rewrite Hfilter. by vm_compute.
Defined.

(** C5 on two spellings of one path: the second lookup is not answered
    from the memo table, it hashes the file and consults the cache again. *)
Lemma other_spelling_not_memoised :
  resolve Demo.env "/doc/images/robot.png" = resolve Demo.env "robot.png" ∧
  ∃ c st1 st2,
    get_caption Demo.env "robot.png" Demo.start = (Ok c, st1) ∧
    get_caption Demo.env "/doc/images/robot.png" st1 = (Ok c, st2) ∧
    captions st1 !! "/doc/images/robot.png" = None ∧
    trace st2
    = trace st1 ++ [CacheGet (md5_hexdigest Demo.env Demo.robot_png)] ∧
    st2 ≠ st1.
Proof.
  split; [done|]. eexists _, _, _.
  split; [by vm_compute|]. split; [by vm_compute|].
  split; [by vm_compute|]. split; [by vm_compute|].
  intros H. apply (f_equal (fun st => length (trace st))) in H.
  vm_compute in H. discriminate.
Qed.

Lemma caption_lookup_on_robot_image :
  ∃ st1,
    get_caption Demo.env "robot.png" Demo.start = (Ok "a robot on a field", st1) ∧
    get_caption Demo.env "robot.png"
      (after_captions Demo.env ["field.png"; "copy.png"; "nothing.png"] st1)
    = (Ok "a robot on a field",
       after_captions Demo.env ["field.png"; "copy.png"; "nothing.png"] st1) ∧
    (get_caption Demo.env "copy.png"
       (after_captions Demo.env ["field.png"; "nothing.png"] st1)).1
    = Ok "a robot on a field" ∧
    (get_caption Demo.env "copy.png" (restart st1)).1 = Ok "a robot on a field".
Proof.
  assert (H0 : memo_agrees Demo.env Demo.start).
  { intros url caption bytes H. cbn in H. by rewrite lookup_empty in H. }
  assert (H1 : captions Demo.start !! "robot.png" = None) by (vm_compute; reflexivity).
  assert (H2 : disk Demo.env (resolve Demo.env "robot.png") = Some (File Demo.robot_png))
    by (vm_compute; reflexivity).
  assert (H3 : cache_view Demo.env Demo.start = Some ∅) by (vm_compute; reflexivity).
  assert (H4 : (∅ : gmap string string) !! md5_hexdigest Demo.env Demo.robot_png = None)
    by (vm_compute; reflexivity).
  assert (H5 : disk Demo.env (resolve Demo.env "copy.png") = Some (File Demo.robot_png))
    by (vm_compute; reflexivity).
  pose proof (caption_lookup_idempotent Demo.env "robot.png" "copy.png"
                Demo.robot_png Demo.robot_png ∅ Demo.start
                H0 H1 H2 eq_refl H3 H4 (or_intror eq_refl) H5) as H.
  cbv zeta in H.
  destruct H as (st1 & Hget & _ & _ & Hlater & Hnext);
    [vm_compute; reflexivity|vm_compute; reflexivity|].
  exists st1. split; [exact Hget|].
  split; [exact (proj1 (Hlater _))|].
  destruct (proj2 (Hlater ["field.png"; "nothing.png"])) as (st3 & -> & _).
  destruct Hnext as (st4 & -> & _). split; reflexivity.
Defined.

Lemma missing_image_on_disk :
  (get_caption Demo.env "nothing.png" Demo.start).1 = Ok EmptyString ∧
  trace (get_caption Demo.env "nothing.png" Demo.start).2
  = [Log WARNING "Image /doc/images/nothing.png does not exist"] ∧
  (filter Demo.env (Image EmptyString "nothing.png" ∅) "cpp" Demo.start).1
  = Ok (Some (RawInline (figure EmptyString "nothing.png" EmptyString EmptyString)
                        "latex")).
Proof.
  destruct (missing_image_empty_caption Demo.env "nothing.png" Demo.start)
    as (Hget & _ & Hfilter); [reflexivity|exact start_memo_sound|].
  rewrite Hget. split; [done|]. split; [done|].
  by rewrite (Hfilter EmptyString ∅ "cpp" EmptyString).
Defined.


(** ** md2tex.py: runs of lookups *)

Import Run.

Lemma loads_app (t u : list event) : loads (t ++ u) = (loads t + loads u)%nat.
Proof. induction t as [|e t IH]; [done|]. destruct e; cbn; rewrite ?IH; done. Qed.

Lemma writes_app (t u : list event) : writes (t ++ u) = (writes t + writes u)%nat.
Proof. induction t as [|e t IH]; [done|]. destruct e; cbn; rewrite ?IH; done. Qed.

Section Runs.

Context (E : Env).

Lemma get_models_fails (st : state) :
  models st = false →
  from_pretrained E = false →
  get_models E st
  = (Raise ModelError,
     {| cache_file := cache_file st; caption_cache := caption_cache st;
        captions := captions st; models := false;
        trace := trace st ++ [LoadModels; Log INFO "Loading models"] |}).
Proof.
  unfold get_models. destruct st as [f c m l t]. cbn. intros -> Hp.
  run. rewrite Hp. by rewrite <- app_assoc.
Qed.

(** What a lookup that is not pending leaves behind: no generation, no
    write, the same cache file, and a dictionary that is the one the
    process saw before. *)
Lemma get_caption_not_pending (url : string) (st : state) :
  ¬ pending E st url →
  ∃ evs,
    trace (get_caption E url st).2 = trace st ++ evs ∧
    generations evs = 0%nat ∧ writes evs = 0%nat ∧
    cache_file (get_caption E url st).2 = cache_file st ∧
    (∀ d, caption_cache (get_caption E url st).2 = Some d → cache_view E st = Some d) ∧
    (from_pretrained E = true →
     loads evs = 0%nat ∧ models (get_caption E url st).2 = models st).
Proof.
  intros Hnot. destruct (captions st !! url) as [c|] eqn:Hmemo.
  { rewrite (get_caption_memoised _ _ _ _ Hmemo). exists []. cbn [snd].
    rewrite app_nil_r. repeat split; try done.
    intros d Hd. unfold cache_view. by rewrite Hd. }
  rewrite (get_caption_fresh _ _ _ Hmemo).
  destruct (disk E (resolve E url)) as [[bytes|]|] eqn:Hdisk.
  - destruct (pil_open E bytes) as [img|] eqn:Hopen.
    2: { unfold get_caption_body. rewrite Hdisk, Hopen. exists []. cbn.
         rewrite app_nil_r. repeat split; try done.
         intros d Hd. unfold cache_view. by rewrite Hd. }
    destruct (cache_view E st) as [d|] eqn:Hview.
    2: { unfold get_caption_body. rewrite Hdisk, Hopen. cbv [mbind M_bind].
         rewrite (get_caption_cache_fails _ _ Hview). exists [ReadCacheFile].
         cbn. repeat split; try done. intros d Hd.
         unfold cache_view in Hview. by rewrite Hd in Hview. }
    destruct (d !! md5_hexdigest E bytes) as [c|] eqn:Hget.
    { rewrite (get_caption_body_hit _ _ _ _ _ _ _ Hdisk Hopen Hview Hget).
      eexists. cbn. split; [done|].
      rewrite generations_app, writes_app, loads_app, generations_reading.
      unfold reading. destruct (caption_cache st); repeat split; try done;
        by intros ? [= <-]. }
    destruct (models st) eqn:Hm.
    { destruct Hnot. split; [done|]. exists bytes, d. by repeat split; auto. }
    destruct (from_pretrained E) eqn:Hp.
    { destruct Hnot. split; [done|]. exists bytes, d. by repeat split; auto. }
    unfold get_caption_body. rewrite Hdisk, Hopen. cbv [mbind M_bind].
    rewrite (get_caption_cache_view _ _ _ Hview). run. rewrite Hget.
    cbv [mbind M_bind]. rewrite get_models_fails by done.
    eexists. cbn. rewrite <- !app_assoc. split; [done|].
    rewrite generations_app, writes_app, generations_reading.
    unfold reading. destruct (caption_cache st); repeat split; try done;
      by intros ? [= <-].
  - unfold get_caption_body. rewrite Hdisk. exists []. cbn.
    rewrite app_nil_r. repeat split; try done.
    intros d Hd. unfold cache_view. by rewrite Hd.
  - rewrite (get_caption_body_missing _ _ _ Hdisk). eexists. cbn.
    split; [done|]. repeat split; try done.
    intros d Hd. unfold cache_view. by rewrite Hd.
Qed.

Lemma pending_dec (url : string) (st : state) :
  pending E st url ∨ ¬ pending E st url.
Proof.
  unfold pending.
  destruct (captions st !! url); [right; by intros [? _]|].
  destruct (disk E (resolve E url)) as [[bytes|]|];
    [|right; by intros (_ & ? & ? & ? & _)..].
  destruct (pil_open E bytes) as [img|] eqn:Hopen.
  2: { right. intros (_ & b & d & [= <-] & [? Hsome] & _). congruence. }
  destruct (cache_view E st) as [d|].
  2: { right. by intros (_ & b & d & _ & _ & ? & _). }
  destruct (d !! md5_hexdigest E bytes) eqn:Hget.
  { right. intros (_ & b & d' & [= <-] & _ & [= <-] & ? & _). congruence. }
  destruct (models st) eqn:Hm.
  { left. split; [done|]. exists bytes, d. by repeat split; auto. }
  destruct (from_pretrained E) eqn:Hp.
  { left. split; [done|]. exists bytes, d. by repeat split; auto. }
  right. by intros (_ & b & d' & _ & _ & _ & _ & [?|?]).
Qed.

(** What a pending lookup does. *)
Lemma get_caption_pending (url : string) (st : state) :
  pending E st url →
  ∃ bytes img d,
    disk E (resolve E url) = Some (File bytes) ∧
    pil_open E bytes = Some img ∧
    cache_view E st = Some d ∧
    d !! md5_hexdigest E bytes = None ∧
    let h := md5_hexdigest E bytes in
    let c := strip (predict E img) in
    let d' := <[h := c]> d in
    get_caption E url st
    = (Ok c,
       {| cache_file := yaml_dump E d'; caption_cache := Some d';
          captions := <[url := c]> (captions st); models := true;
          trace := trace st ++ reading st ++ [CacheGet h] ++ loading st
                   ++ [Generate; CacheSet h c; WriteCacheFile (yaml_dump E d')] |}).
Proof.
  intros (Hmemo & bytes & d & Hdisk & [img Hopen] & Hview & Hget & Hmodels).
  exists bytes, img, d. repeat split; try done.
  by apply get_caption_miss.
Qed.

Lemma loads_reading (st : state) : loads (reading st) = 0%nat.
Proof. unfold reading. by destruct (caption_cache st). Qed.





Lemma get_caption_loads (url : string) (st : state) :
  from_pretrained E = true →
  (loads (trace (get_caption E url st).2)
   + (if models (get_caption E url st).2 then 0 else 1)
   = loads (trace st) + (if models st then 0 else 1))%nat.
Proof.
  intros Hfp. destruct (pending_dec url st) as [Hp|Hn].
  - destruct (get_caption_pending _ _ Hp) as (bytes & img & d & _ & _ & _ & _ & ->).
    cbn [snd trace models].
    rewrite !loads_app, loads_reading. unfold loading.
    destruct (models st); cbn; lia.
  - destruct (get_caption_not_pending _ _ Hn) as (evs & -> & _ & _ & _ & _ & Hl).
    destruct (Hl Hfp) as [Hl0 ->]. rewrite loads_app. lia.
Qed.

(** X2. When the models can be loaded, a process loads them at most once,
    however many lookups it runs. *)
Theorem models_loaded_at_most_once (urls : list string) (st : state) :
  from_pretrained E = true →
  (loads (trace (after_captions E urls (restart st))) ≤ 1)%nat.
Proof.
  intros Hfp.
  assert (H : ∀ st0,
    (loads (trace (after_captions E urls st0))
     + (if models (after_captions E urls st0) then 0 else 1)
     = loads (trace st0) + (if models st0 then 0 else 1))%nat).
  { induction urls as [|url urls IH]; intros st0; [done|].
    cbn [after_captions]. rewrite IH. by apply get_caption_loads. }
  specialize (H (restart st)). cbn in H. lia.
Qed.











(** X6. An entry of the cache is never overwritten or dropped: what the
    process sees under a hash it sees there after any run of lookups. *)
Theorem cache_entries_persist (urls : list string) (h c : string) (st : state) :
  cache_has E st h c → cache_has E (after_captions E urls st) h c.
Proof. apply after_captions_keeps_cache. Qed.

(** X7. In every state a process reaches by lookups, a memoised caption
    is empty when the path has no file, and is the caption the cache holds
    for the bytes of the file when it is an image file. *)
Theorem memo_table_agrees_with_cache (urls : list string) (st : state) :
  memo_sound E (after_captions E urls (restart st)) ∧
  memo_agrees E (after_captions E urls (restart st)).
Proof.
  split.
  - assert (H : ∀ st0, memo_sound E st0 → memo_sound E (after_captions E urls st0)).
    { induction urls as [|url urls IH]; intros st0 H0; [done|].
      cbn [after_captions]. by apply IH, get_caption_memo_sound. }
    apply H. intros url c Hc. cbn in Hc. by rewrite lookup_empty in Hc.
  - apply after_captions_memo_agrees.
    intros url c bytes Hc. cbn in Hc. by rewrite lookup_empty in Hc.
Qed.


(** X9. The sizes of an image are read after its caption is resolved: when
    a size is refused, the caption generated for the image has already
    been stored and written, and stays. *)
Theorem size_error_after_caption (url content : string) (bytes : list Byte.byte)
    (attributes : gmap string string) (language : string) (e : exn) (st : state) :
  truthy (capitalize (strip content)) = false →
  pending E st url →
  disk E (resolve E url) = Some (File bytes) →
  image_formats attributes = Raise e →
  ∃ st' d' c,
    filter E (Image content url attributes) language st = (Raise e, st') ∧
    caption_cache st' = Some d' ∧
    cache_file st' = yaml_dump E d' ∧
    d' !! md5_hexdigest E bytes = Some c ∧
    captions st' !! url = Some c ∧
    generations (trace st') = S (generations (trace st)).
Proof.
  intros Hempty Hp Hdisk Hformats.
  assert (Hp' : pending E
    (with_event (Log WARNING ("Image " +:+ url +:+ " has no caption")) st) url)
    by exact Hp.
  destruct (get_caption_pending _ _ Hp')
    as (bytes' & img & d & Hdisk' & Hopen & Hview & Hget & Hok).
  assert (bytes' = bytes) as -> by congruence.
  cbv zeta in Hok.
  rewrite filter_image, (image_caption_generated _ _ _ _ Hempty), Hok, Hformats.
  eexists _, _, _. split; [done|].
  cbn [with_event trace cache_file caption_cache captions models].
  split; [done|]. split; [done|]. split; [apply lookup_insert_eq|].
  split; [apply lookup_insert_eq|].
  rewrite !generations_app, generations_reading, generations_loading.
  cbn. lia.
Qed.

End Runs.

(** ** build.py: commands, lists of items *)

Lemma append_nil_r (s : string) : s +:+ EmptyString = s.
Proof. induction s as [|c s IH]; [done|]. by rewrite append_cons, IH. Qed.

Lemma join_empty_cons (x : string) (l : list string) :
  join EmptyString (x :: l) = x +:+ join EmptyString l.
Proof. destruct l; [by rewrite append_nil_r|done]. Qed.

Lemma join_empty_snoc (l : list string) (x : string) :
  join EmptyString (l ++ [x]) = join EmptyString l +:+ x.
Proof.
  induction l as [|y l IH]; [done|].
  change ((y :: l) ++ [x]) with (y :: (l ++ [x])).
  by rewrite !join_empty_cons, IH, append_assoc.
Qed.

Lemma repr_required (b : Build.CommandBuilder) (arg : string) :
  Build.repr (Build.required b arg) = Build.repr b +:+ "{" +:+ arg +:+ "}".
Proof.
  unfold Build.repr, Build.required. cbn [Build.cmd Build.args].
  rewrite map_app. cbn [map fst snd]. rewrite join_empty_snoc.
  change (String.eqb "required" "optional") with false. cbv iota.
  by rewrite !append_assoc.
Qed.

Lemma repr_optional (b : Build.CommandBuilder) (arg : string) :
  Build.repr (Build.optional b arg) = Build.repr b +:+ "[" +:+ arg +:+ "]".
Proof.
  unfold Build.repr, Build.optional. cbn [Build.cmd Build.args].
  rewrite map_app. cbn [map fst snd]. rewrite join_empty_snoc.
  change (String.eqb "optional" "optional") with true. cbv iota.
  by rewrite !append_assoc.
Qed.

Lemma repr_new (name : string) : Build.repr (Build.new name) = "\" +:+ name.
Proof. unfold Build.repr. cbn. by rewrite append_nil_r. Qed.

(** X10. Each call on a command builder adds its argument after the ones
    already there, a required one between braces and an optional one
    between brackets; a conditional call whose condition is false adds
    nothing. *)
Theorem command_builder_repr (b : Build.CommandBuilder) (arg : string) :
  Build.repr (Build.required b arg) = Build.repr b +:+ "{" +:+ arg +:+ "}" ∧
  Build.repr (Build.optional b arg) = Build.repr b +:+ "[" +:+ arg +:+ "]" ∧
  Build.repr (Build.required_if b arg true) = Build.repr b +:+ "{" +:+ arg +:+ "}" ∧
  Build.repr (Build.optional_if b arg true) = Build.repr b +:+ "[" +:+ arg +:+ "]" ∧
  Build.repr (Build.required_if b arg false) = Build.repr b ∧
  Build.repr (Build.optional_if b arg false) = Build.repr b ∧
  ∀ name, Build.repr (Build.new name) = "\" +:+ name.
Proof.
  pose proof (repr_required b arg). pose proof (repr_optional b arg).
  repeat split; try done. apply repr_new.
Qed.

(** X11. The header of a contributor segment is [\work{who}[title]], with
    "NULL" for a missing or empty title and a further [[0pt]] on the first
    segment only; [who] is the name, or the names joined as a list, and an
    empty list of names raises [IndexError]. *)
Theorem work_command_header (i : nat) (name : Build.names) (title : option string) :
  let shown :=
    match title with
    | Some t => if truthy t then t else "NULL"
    | None => "NULL"
    end in
  match Build.convert_name name with
  | Ok who =>
      Build.work_command i name title
      = Ok ("\work{" +:+ who +:+ "}[" +:+ shown +:+ "]"
            +:+ (if (i =? 0)%nat then "[0pt]" else EmptyString))
  | Raise e => Build.work_command i name title = Raise e
  end ∧
  Build.work_command i (Build.Names []) title = Raise IndexError.
Proof.
  intros shown. split; [|done]. unfold Build.work_command.
  destruct (Build.convert_name name) as [who|e]; [|done].
  cbn [mbind result_bind mret result_ret]. f_equal.
  assert (Hshown : (if truthy (default EmptyString title)
                    then default EmptyString title else "NULL") = shown).
  { subst shown. destruct title as [t|]; [done|done]. }
  rewrite Hshown.
  destruct (i =? 0)%nat; cbn [Build.optional_if];
    rewrite !repr_optional, repr_required, repr_new;
    rewrite ?append_assoc, ?append_nil_r; reflexivity.
Qed.

(** ** build.py: items *)

Lemma truthy_append_r (a b : string) : truthy b = true → truthy (a +:+ b) = true.
Proof. destruct a; [done|done]. Qed.

Lemma rstrip_append (p s : string) :
  rstrip (p +:+ s) = if truthy (rstrip s) then p +:+ rstrip s else rstrip p.
Proof.
  induction p as [|c p IH].
  - change (EmptyString +:+ s) with s. by destruct (rstrip s).
  - rewrite append_cons. cbn [rstrip]. rewrite IH.
    destruct (truthy (rstrip s)) eqn:Hs; [|done].
    by rewrite truthy_append_r, append_cons.
Qed.

Lemma item_line (i : string) :
  strip ("\item " +:+ i)
  = if truthy (rstrip i) then "\item " +:+ rstrip i else "\item".
Proof.
  unfold strip. change (lstrip ("\item " +:+ i)) with ("\item " +:+ i).
  by rewrite rstrip_append.
Qed.

(** X12. [itemizer] and [enumerater] put every item on a line of its own
    after [\item] and a space, keeping the white space at its start and
    dropping the white space at its end; an item of white space only gives
    a bare [\item], and an empty list gives an environment with one empty
    line. *)
Theorem itemizer_lines (l : list string) :
  Forall (fun i => is_ascii i = true) l →
  let line i := if truthy (rstrip i) then "\item " +:+ rstrip i else "\item" in
  Build.itemizer l
  = "\begin{itemize}" +:+ nl +:+ join nl (map line l) +:+ nl +:+ "\end{itemize}" ∧
  Build.enumerater l
  = "\begin{enumerate}" +:+ nl +:+ join nl (map line l) +:+ nl +:+ "\end{enumerate}" ∧
  Build.itemizer [] = "\begin{itemize}" +:+ nl +:+ nl +:+ "\end{itemize}".
Proof.
  intros _ line. unfold Build.itemizer, Build.enumerater.
  assert (Hmap : map (fun i => strip ("\item " +:+ i)) l = map line l).
  { apply map_ext. intros i. apply item_line. }
  rewrite Hmap. done.
Qed.

(** ** build.py: dates and times *)

Import Clock.

Lemma is_ok_eq (r : result string) (s : string) : is_ok r s = true → r = Ok s.
Proof. destruct r as [x|e]; [|done]. cbn. by intros ->%String.eqb_eq. Qed.

Lemma is_value_error_eq (r : result string) :
  is_value_error r = true → r = Raise ValueError.
Proof. by destruct r as [x|[]]. Qed.

Lemma is_number_eq (r : result Z) (n : Z) : is_number r n = true → r = Ok n.
Proof. destruct r as [x|e]; [|done]. cbn. by intros ->%Z.eqb_eq. Qed.

Lemma table_lookup (P : nat → nat → bool) (a b i j : nat) :
  forallb (fun x => forallb (P x) (seq 0 b)) (seq 0 a) = true →
  (i < a)%nat → (j < b)%nat → P i j = true.
Proof.
  intros Hall Hi Hj.
  rewrite forallb_forall in Hall. specialize (Hall i).
  rewrite forallb_forall in Hall. apply Hall; apply in_seq; lia.
Qed.

Lemma time_24_table :
  forallb (fun h => forallb (fun m =>
    let hh := Z.of_nat h in
    let mm := Z.of_nat m in
    let out := decimal (hour12 hh) +:+ ":" +:+ Datetime.two_digits mm
               +:+ " " +:+ meridiem hh in
    let padded :=
      Build.convert_time (Datetime.two_digits hh +:+ ":" +:+ Datetime.two_digits mm) in
    let plain := Build.convert_time (decimal hh +:+ ":" +:+ Datetime.two_digits mm) in
    if (h <? 24)%nat && (m <? 60)%nat then is_ok padded out && is_ok plain out
    else is_value_error padded && is_value_error plain)
    (seq 0 100)) (seq 0 100) = true.
Proof. vm_compute. reflexivity. Qed.

(** X13. A 24-hour time [h:mm], the hour written with one digit or two, is
    rendered on the 12-hour clock with the minute kept on two digits
    (midnight is 12 AM, noon 12 PM); an hour from 24 or a minute from 60
    raises [ValueError]. *)
Theorem convert_time_24_hour (h m : nat) :
  (h < 100)%nat → (m < 100)%nat →
  let hh := Z.of_nat h in
  let mm := Z.of_nat m in
  let result :=
    if (h <? 24)%nat && (m <? 60)%nat then
      Ok (decimal (hour12 hh) +:+ ":" +:+ Datetime.two_digits mm +:+ " " +:+ meridiem hh)
    else Raise ValueError in
  Build.convert_time (Datetime.two_digits hh +:+ ":" +:+ Datetime.two_digits mm) = result ∧
  Build.convert_time (decimal hh +:+ ":" +:+ Datetime.two_digits mm) = result.
Proof.
  intros Hh Hm hh mm result.
  pose proof (table_lookup _ _ _ h m time_24_table Hh Hm) as H.
  cbv beta zeta in H. fold hh mm in H. subst result.
  destruct ((h <? 24)%nat && (m <? 60)%nat); apply andb_prop in H as [H1 H2].
  - by rewrite (is_ok_eq _ _ H1), (is_ok_eq _ _ H2).
  - by rewrite (is_value_error_eq _ H1), (is_value_error_eq _ H2).
Qed.

Lemma time_12_table :
  forallb (fun h => forallb (fun m =>
    forallb (fun sep => forallb (fun p =>
      let hh := Z.of_nat h in
      let mm := Z.of_nat m in
      let result :=
        if (1 <=? h)%nat && (h <=? 12)%nat
        then Ok (decimal hh +:+ ":" +:+ decimal mm +:+ " " +:+ p)
        else Raise ValueError in
      let padded :=
        Build.convert_time (Datetime.two_digits hh +:+ ":" +:+ Datetime.two_digits mm
                            +:+ sep +:+ p) in
      let plain :=
        Build.convert_time (decimal hh +:+ ":" +:+ Datetime.two_digits mm +:+ sep +:+ p) in
      match result with
      | Ok out => is_ok padded out && is_ok plain out
      | Raise _ => is_value_error padded && is_value_error plain
      end)
      ["AM"; "PM"])
      [EmptyString; " "; "  "; String (ascii_of_nat 9) EmptyString])
    (seq 0 60)) (seq 0 24) = true.
Proof. vm_compute. reflexivity. Qed.

(** X14. A 12-hour time [h:mm AM] or [h:mm PM], with or without white space
    before the half of the day, is rendered with the hour and the minute
    without padding, so that 1:05 PM becomes 1:5 PM; an hour outside 1..12
    raises [ValueError]. *)
Theorem convert_time_12_hour (h m : nat) (sep p : string) :
  (h < 24)%nat → (m < 60)%nat →
  In sep [EmptyString; " "; "  "; String (ascii_of_nat 9) EmptyString] →
  In p ["AM"; "PM"] →
  let hh := Z.of_nat h in
  let mm := Z.of_nat m in
  let result :=
    if (1 <=? h)%nat && (h <=? 12)%nat
    then Ok (decimal hh +:+ ":" +:+ decimal mm +:+ " " +:+ p)
    else Raise ValueError in
  Build.convert_time (Datetime.two_digits hh +:+ ":" +:+ Datetime.two_digits mm
                      +:+ sep +:+ p) = result ∧
  Build.convert_time (decimal hh +:+ ":" +:+ Datetime.two_digits mm +:+ sep +:+ p)
  = result.
Proof.
  intros Hh Hm Hsep Hp hh mm result.
  pose proof time_12_table as H.
  rewrite forallb_forall in H. specialize (H h). rewrite forallb_forall in H.
  specialize (H ltac:(apply in_seq; lia) m ltac:(apply in_seq; lia)).
  rewrite forallb_forall in H. specialize (H sep Hsep).
  rewrite forallb_forall in H. specialize (H p Hp).
  cbv beta zeta in H. fold hh mm in H. subst result.
  destruct ((1 <=? h)%nat && (h <=? 12)%nat); apply andb_prop in H as [H1 H2].
  - by rewrite (is_ok_eq _ _ H1), (is_ok_eq _ _ H2).
  - by rewrite (is_value_error_eq _ H1), (is_value_error_eq _ H2).
Qed.

Lemma time_twice_table :
  forallb (fun h => forallb (fun m =>
    let hh := Z.of_nat h in
    let mm := Z.of_nat m in
    let once := decimal (hour12 hh) +:+ ":" +:+ Datetime.two_digits mm
                +:+ " " +:+ meridiem hh in
    let twice := decimal (hour12 hh) +:+ ":" +:+ decimal mm +:+ " " +:+ meridiem hh in
    is_ok (Build.convert_time (Datetime.two_digits hh +:+ ":" +:+ Datetime.two_digits mm))
          once
    && is_ok (Build.convert_time once) twice
    && is_ok (Build.convert_time twice) twice
    && (if (m <? 10)%nat then negb (String.eqb once twice) else String.eqb once twice))
    (seq 0 60)) (seq 0 24) = true.
Proof. vm_compute. reflexivity. Qed.

(** X15. [convert_time] does not keep its own output: applied to the
    rendering of a 24-hour time it drops the padding of the minute, which
    changes the text when the minute is below 10; applied once more it
    changes nothing. *)
Theorem convert_time_twice (h m : nat) :
  (h < 24)%nat → (m < 60)%nat →
  let hh := Z.of_nat h in
  let mm := Z.of_nat m in
  let once := decimal (hour12 hh) +:+ ":" +:+ Datetime.two_digits mm
              +:+ " " +:+ meridiem hh in
  let twice := decimal (hour12 hh) +:+ ":" +:+ decimal mm +:+ " " +:+ meridiem hh in
  Build.convert_time (Datetime.two_digits hh +:+ ":" +:+ Datetime.two_digits mm) = Ok once ∧
  Build.convert_time once = Ok twice ∧
  Build.convert_time twice = Ok twice ∧
  ((m < 10)%nat → once ≠ twice) ∧
  ((10 ≤ m)%nat → once = twice).
Proof.
  intros Hh Hm hh mm once twice.
  pose proof (table_lookup _ _ _ h m time_twice_table Hh Hm) as H.
  cbv beta zeta in H. fold hh mm in H. fold once twice in H.
  apply andb_prop in H as [H H4]. apply andb_prop in H as [H H3].
  apply andb_prop in H as [H1 H2].
  split; [by apply is_ok_eq|]. split; [by apply is_ok_eq|].
  split; [by apply is_ok_eq|].
  destruct (Nat.ltb_spec m 10) as [Hlt|Hge].
  - split; [|lia]. intros _ Heq. rewrite Heq, String.eqb_refl in H4. done.
  - split; [lia|]. intros _. by apply String.eqb_eq.
Qed.

(** *** Dates *)

Lemma head_map {A B} (f : A → B) (l : list A) : head (map f l) = f <$> head l.
Proof. by destruct l. Qed.

Lemma pattern_date :
  Datetime.pattern (Datetime.parse_format "%Y-%m-%d") false
  = Some (Re.Seq (Re.Grp "Y" (Re.Seq (Re.Cls Re.digit) (Re.Seq (Re.Cls Re.digit)
                   (Re.Seq (Re.Cls Re.digit) (Re.Cls Re.digit)))))
                 date_tail).
Proof. reflexivity. Qed.

Lemma exec_year (R : Re.re) (a b c e : ascii) (rest : string) :
  Re.digit a = true → Re.digit b = true → Re.digit c = true → Re.digit e = true →
  let text := String a (String b (String c (String e EmptyString))) in
  Re.exec (Re.Seq (Re.Grp "Y" (Re.Seq (Re.Cls Re.digit) (Re.Seq (Re.Cls Re.digit)
             (Re.Seq (Re.Cls Re.digit) (Re.Cls Re.digit))))) R)
          (String a (String b (String c (String e rest))))
  = map (fun y => (("Y", text) :: y.1.1, text +:+ y.1.2, y.2)) (Re.exec R rest).
Proof.
  intros Ha Hb Hc He text. cbn [Re.exec]. rewrite Ha. cbn [flat_map map app Re.exec fst snd].
  rewrite Hb. cbn [flat_map map app Re.exec fst snd].
  rewrite Hc. cbn [flat_map map app Re.exec fst snd].
  rewrite He. cbn [flat_map map app Re.exec fst snd].
  rewrite app_nil_r. done.
Qed.

Lemma year_table :
  forallb (fun n =>
    let y := 1000 + Z.of_nat n in
    match decimal y with
    | String a (String b (String c (String e EmptyString))) =>
        Re.digit a && Re.digit b && Re.digit c && Re.digit e
        && is_number (int (String a (String b (String c (String e EmptyString))))) y
    | _ => false
    end) (seq 0 (90 * 100)) = true.
Proof. vm_compute. reflexivity. Qed.

Lemma date_tail_table :
  forallb (fun m => forallb (fun d =>
    forallb (fun mm => forallb (fun dd =>
      match head (Re.exec date_tail ("-" +:+ mm +:+ "-" +:+ dd)) with
      | Some ([(k1, v1); (k2, v2)], _, rest) =>
          String.eqb k1 "m" && String.eqb v1 mm && String.eqb k2 "d" && String.eqb v2 dd
          && negb (truthy rest)
          && is_number (int mm) (Z.of_nat (S m)) && is_number (int dd) (Z.of_nat (S d))
      | _ => false
      end)
      [Datetime.two_digits (Z.of_nat (S d)); decimal (Z.of_nat (S d))])
      [Datetime.two_digits (Z.of_nat (S m)); decimal (Z.of_nat (S m))])
    (seq 0 31)) (seq 0 12) = true.
Proof. vm_compute. reflexivity. Qed.

(** X16. A date [yyyy-mm-dd] from the year 1000 on, the month and the day
    written with or without a leading zero, is rendered as the English
    name of the month, the day without padding, a comma and the year; a
    day that the month does not have raises [ValueError]. *)
Theorem convert_date_calendar (y m d : Z) (mm dd : string) :
  1000 ≤ y ≤ 9999 → 1 ≤ m ≤ 12 → 1 ≤ d ≤ 31 →
  In mm [Datetime.two_digits m; decimal m] →
  In dd [Datetime.two_digits d; decimal d] →
  Build.convert_date (decimal y +:+ "-" +:+ mm +:+ "-" +:+ dd)
  = if d <=? Datetime.days_in_month y m
    then Ok (Datetime.month_name m +:+ " " +:+ decimal d +:+ ", " +:+ decimal y)
    else Raise ValueError.
Proof.
  intros Hy Hm Hd Hmm Hdd.
  (* the year *)
  pose proof year_table as Hyear. rewrite forallb_forall in Hyear.
  specialize (Hyear (Z.to_nat (y - 1000)) ltac:(apply in_seq; lia)).
  cbv zeta in Hyear.
  replace (1000 + Z.of_nat (Z.to_nat (y - 1000))) with y in Hyear by lia.
  destruct (decimal y) as [|a [|b [|c [|e [|? ?]]]]] eqn:Hdec; try done.
  apply andb_prop in Hyear as [Hyear Hint]. apply andb_prop in Hyear as [Hyear He].
  apply andb_prop in Hyear as [Hyear Hc]. apply andb_prop in Hyear as [Ha Hb].
  apply is_number_eq in Hint.
  (* the month and the day *)
  pose proof date_tail_table as Htail. rewrite forallb_forall in Htail.
  specialize (Htail (Z.to_nat (m - 1)) ltac:(apply in_seq; lia)).
  rewrite forallb_forall in Htail.
  specialize (Htail (Z.to_nat (d - 1)) ltac:(apply in_seq; lia)).
  replace (Z.of_nat (S (Z.to_nat (m - 1)))) with m in Htail by lia.
  replace (Z.of_nat (S (Z.to_nat (d - 1)))) with d in Htail by lia.
  rewrite forallb_forall in Htail. specialize (Htail mm Hmm).
  rewrite forallb_forall in Htail. specialize (Htail dd Hdd).
  (* the match *)
  unfold Build.convert_date, Datetime.strptime. rewrite pattern_date.
  unfold Re.match_.
  change (String a (String b (String c (String e EmptyString))) +:+ ?t)
    with (String a (String b (String c (String e t)))).
  rewrite (exec_year _ a b c e _ Ha Hb Hc He). rewrite head_map.
  destruct (head (Re.exec date_tail ("-" +:+ mm +:+ "-" +:+ dd)))
    as [[[groups matched] rest]|]; [|done].
  destruct groups as [|[k1 v1] [|[k2 v2] [|? ?]]]; try done.
  apply andb_prop in Htail as [Htail Hintd]. apply andb_prop in Htail as [Htail Hintm].
  apply andb_prop in Htail as [Htail Hrest]. apply andb_prop in Htail as [Htail Hv2].
  apply andb_prop in Htail as [Htail Hk2]. apply andb_prop in Htail as [Htail Hv1].
  apply String.eqb_eq in Htail as ->. apply String.eqb_eq in Hv1 as ->.
  apply String.eqb_eq in Hk2 as ->. apply String.eqb_eq in Hv2 as ->.
  apply is_number_eq in Hintm, Hintd.
  cbn [fmap option_fmap option_map fst snd].
  destruct rest; [|done]. cbn [truthy].
  unfold Datetime.field. cbn [Re.group String.eqb Ascii.eqb Bool.eqb].
  rewrite Hint, Hintm, Hintd.
  cbn [mbind result_bind mret result_ret default].
  rewrite (proj2 (Z.leb_le 1 y)) by lia.
  rewrite (proj2 (Z.leb_le y 9999)) by lia.
  rewrite (proj2 (Z.leb_le 1 m)) by lia.
  rewrite (proj2 (Z.leb_le m 12)) by lia.
  rewrite (proj2 (Z.leb_le 1 d)) by lia.
  cbn [andb].
  destruct (d <=? Datetime.days_in_month y m); [|done].
  cbn [mbind result_bind mret result_ret]. f_equal. unfold Datetime.strftime.
  cbn [Datetime.parse_format map Datetime.strftime_item Datetime.year Datetime.month
       Datetime.day Ascii.eqb Bool.eqb].
  rewrite Hdec. reflexivity.
Qed.

(** ** The further statements on the small world *)

Lemma models_loaded_once_example :
  (loads (trace (after_captions Demo.env
                   ["robot.png"; "field.png"; "copy.png"; "robot.png"]
                   (restart Demo.start))) ≤ 1)%nat.
Proof. apply (models_loaded_at_most_once Demo.env). reflexivity. Defined.


Lemma cache_entries_persist_example :
  cache_has Demo.env
    (after_captions Demo.env ["field.png"; "nothing.png"]
       (get_caption Demo.env "robot.png" Demo.start).2)
    "0cc175b9c0f1b6a831c399e269772661" "a robot on a field".
Proof.
  apply (cache_entries_persist Demo.env ["field.png"; "nothing.png"]).
  exists {[ "0cc175b9c0f1b6a831c399e269772661" := "a robot on a field" ]}.
  split; vm_compute; reflexivity.
Defined.


Lemma size_error_example :
  ∃ st' d' c,
    filter Demo.env (Image EmptyString "robot.png" {[ "width" := "12.5%" ]}) "cpp"
           Demo.start = (Raise ValueError, st') ∧
    caption_cache st' = Some d' ∧
    cache_file st' = yaml_dump Demo.env d' ∧
    d' !! md5_hexdigest Demo.env Demo.robot_png = Some c ∧
    captions st' !! "robot.png" = Some c ∧
    generations (trace st') = S (generations (trace Demo.start)).
Proof.
  apply (size_error_after_caption Demo.env "robot.png" EmptyString Demo.robot_png).
  - reflexivity.
  - split; [vm_compute; reflexivity|].
    exists Demo.robot_png, ∅. split; [vm_compute; reflexivity|].
    split; [by eexists|]. split; [vm_compute; reflexivity|].
    split; [vm_compute; reflexivity|]. by right.
  - vm_compute; reflexivity.
  - vm_compute; reflexivity.
Defined.

Lemma itemizer_example :
  Build.itemizer ["held the robot "; "  "; " tested"]
  = "\begin{itemize}" +:+ nl +:+ "\item held the robot" +:+ nl +:+ "\item" +:+ nl
    +:+ "\item  tested" +:+ nl +:+ "\end{itemize}".
Proof.
  destruct (itemizer_lines ["held the robot "; "  "; " tested"]) as (H & _ & _).
  - repeat constructor.
  - rewrite H. reflexivity.
Defined.

Lemma convert_time_24_hour_example :
  Build.convert_time "13:05" = Ok "1:05 PM" ∧ Build.convert_time "0:30" = Ok "12:30 AM".
Proof.
  split.
  - apply (convert_time_24_hour 13 5); lia.
  - apply (convert_time_24_hour 0 30); lia.
Defined.

Lemma convert_time_12_hour_example :
  Build.convert_time "1:05PM" = Ok "1:5 PM" ∧
  Build.convert_time "13:05 PM" = Raise ValueError.
Proof.
  split.
  - apply (convert_time_12_hour 1 5 EmptyString "PM"); [lia|lia|by left|by right; left].
  - apply (convert_time_12_hour 13 5 " " "PM"); [lia|lia|by right; left|by right; left].
Defined.

Lemma convert_time_twice_example :
  Build.convert_time "13:05" = Ok "1:05 PM" ∧
  Build.convert_time "1:05 PM" = Ok "1:5 PM" ∧
  Build.convert_time "1:5 PM" = Ok "1:5 PM".
Proof.
  destruct (convert_time_twice 13 5) as (H1 & H2 & H3 & _); [lia|lia|].
  split; [exact H1|]. split; [exact H2|exact H3].
Defined.

Lemma convert_date_example :
  Build.convert_date "2024-02-29" = Ok "February 29, 2024" ∧
  Build.convert_date "2023-02-29" = Raise ValueError ∧
  Build.convert_date "2024-3-5" = Ok "March 5, 2024".
Proof.
  split; [|split].
  - apply (convert_date_calendar 2024 2 29 "02" "29"); [lia|lia|lia|by left|by left].
  - apply (convert_date_calendar 2023 2 29 "02" "29"); [lia|lia|lia|by left|by left].
  - apply (convert_date_calendar 2024 3 5 "3" "5"); [lia|lia|lia|by right; left|by right; left].
Defined.
